(** * A stack-language compiler: scanner, operation parser, code generator

    Shallow embedding of [main.py] and the proofs of its specification.

    Text is modelled by [string]: a Python [str] whose code points are all
    below 256, one [ascii] per code point.  Python integers are unbounded
    and are modelled by [Z]; indices and columns are natural numbers. *)

From Equations.Prop Require Import Equations Logic.
From Stdlib Require Import List Sorted Arith NArith ZArith Lia Bool Ascii String.
From Stdlib Require Import Decimal DecimalFacts DecimalPos DecimalN DecimalZ DecimalString.
Import ListNotations.

Open Scope string_scope.

(* ===================================================================== *)
(** * Python primitives used by the program *)
(* ===================================================================== *)

Module Py.

(** The newline character and a line of text ending in it. *)
Definition nl : string := String (ascii_of_nat 10) "".

(** [c.isspace()] for a one-character string: the Unicode whitespace code
    points below 256 are 9-13, 28-31, 32, 133 and 160. *)
Definition isspace (c : ascii) : bool :=
  let n := nat_of_ascii c in
  (((9 <=? n) && (n <=? 13)) || ((28 <=? n) && (n <=? 31))
   || (n =? 32) || (n =? 133) || (n =? 160))%nat.

(** [len(s)] and [s[i]] for [0 <= i]; [get] is [None] exactly when the index
    is out of range, where Python raises [IndexError]. *)
Definition len (s : string) : nat := String.length s.

(** [s[a:b]] for non-negative bounds: both ends are clamped to [len(s)] and
    an inverted range is empty. *)
Definition slice (s : string) (a b : nat) : string := substring a (b - a) s.

(** ** Exceptions *)

(** The exception classes that occur; all of them derive from
    [Exception], so that [except Exception] catches each of them. *)
Inductive exn_class : Type :=
| Exception | ValueError | TypeError | IndexError | OSError.

(** An exception object; [exn_msg] is what [str(e)] returns. *)
Record exn : Type := mk_exn { exn_cls : exn_class; exn_msg : string }.

Inductive result (A : Type) : Type :=
| Ok (a : A)
| Raise (e : exn).
Arguments Ok {A} a.
Arguments Raise {A} e.

Definition bind {A B : Type} (r : result A) (k : A -> result B) : result B :=
  match r with
  | Ok a => k a
  | Raise e => Raise e
  end.

(** ** Integers and their decimal text *)

(** [sys.int_info.default_max_str_digits]: CPython refuses to convert
    between [int] and [str] when more decimal digits are involved. *)
Definition int_max_str_digits : nat := 4300.

Definition exceeds_limit (ndigits : nat) : bool :=
  ((0 <? int_max_str_digits) && (int_max_str_digits <? ndigits))%nat.

(** The characters that [int()] strips from both ends of its argument:
    the ASCII whitespace 9-13 and 32 and, above 127, the Unicode whitespace
    133 and 160.  (The separators 28-31 are whitespace for [isspace] but
    [int()] does not strip them.) *)
Definition int_space (c : ascii) : bool :=
  let n := nat_of_ascii c in
  (((9 <=? n) && (n <=? 13)) || (n =? 32) || (n =? 133) || (n =? 160))%nat.

Fixpoint lstrip (s : string) : string :=
  match s with
  | String c s' => if int_space c then lstrip s' else s
  | EmptyString => EmptyString
  end.

Fixpoint rstrip (s : string) : string :=
  match s with
  | String c s' =>
      match rstrip s' with
      | EmptyString => if int_space c then EmptyString else String c EmptyString
      | r => String c r
      end
  | EmptyString => EmptyString
  end.

Definition strip (s : string) : string := rstrip (lstrip s).

(** An optional sign, [+] or [-]; [true] stands for a negative sign. *)
Definition split_sign (s : string) : bool * string :=
  match s with
  | String "+" r => (false, r)
  | String "-" r => (true, r)
  | _ => (false, s)
  end.

(** The digits of the number, read left to right: decimal digits, with
    single underscores allowed between two digits and nowhere else.
    [after_digit] tells whether the previous character was a digit. *)
Fixpoint scan_digits (s : string) (after_digit : bool) : option Decimal.uint :=
  match s with
  | EmptyString => if after_digit then Some Decimal.Nil else None
  | String c s' =>
      if (c =? "_")%char
      then (if after_digit then scan_digits s' false else None)
      else DecimalString.uint_of_char c (scan_digits s' true)
  end.

(** [int(s)] for a string [s] (base 10); [None] stands for the
    [ValueError] that [int()] raises, whose message the program never
    looks at. *)
Definition int (s : string) : option Z :=
  let (negative, body) := split_sign (strip s) in
  match scan_digits body false with
  | Some d =>
      if exceeds_limit (Decimal.nb_digits d) then None
      else Some (if negative then - Z.of_uint d else Z.of_uint d)%Z
  | None => None
  end.

(** The number of decimal digits of [z], and [str(z)]. *)
Definition ndigits (z : Z) : nat := Decimal.nb_digits (N.to_uint (Z.abs_N z)).

Definition decimal (z : Z) : string :=
  DecimalString.NilZero.string_of_int (Z.to_int z).

Definition str_int (z : Z) : result string :=
  if exceeds_limit (ndigits z)
  then Raise (mk_exn ValueError
    "Exceeds the limit (4300 digits) for integer string conversion; use sys.set_int_max_str_digits() to increase the limit")
  else Ok (decimal z).

End Py.

Notation "x <- r ;; k" := (Py.bind r (fun x => k))
  (at level 61, r at next level, right associativity).

(* ===================================================================== *)
(** * Scanner *)
(* ===================================================================== *)

Lemma get_Some_lt (s : string) (i : nat) (c : ascii) :
  get i s = Some c -> i < String.length s.
Proof.
  revert i; induction s as [|a s IH]; intros [|i]; simpl; try discriminate.
  - lia.
  - intros H. apply IH in H. lia.
Qed.

Lemma get_None_ge (s : string) (i : nat) :
  get i s = None -> String.length s <= i.
Proof.
  revert i; induction s as [|a s IH]; intros [|i]; simpl; try discriminate.
  - lia.
  - lia.
  - intros H. apply IH in H. lia.
Qed.

Lemma get_lt_Some (s : string) (i : nat) :
  i < String.length s -> exists c, get i s = Some c.
Proof.
  intros H. destruct (get i s) eqn:E; [eauto|].
  apply get_None_ge in E. lia.
Qed.

(** [find_col]: advance [start] while it is inside the line and the
    character under it does not satisfy the predicate. *)
Equations? find_col (line : string) (start : nat) (predecate : ascii -> bool)
  : nat by wf (String.length line - start) lt :=
  find_col line start predecate with inspect (get start line) := {
    | exist _ (Some c) Hc with predecate c := {
        | true := start
        | false := find_col line (S start) predecate };
    | exist _ None _ := start }.
Proof.
  apply get_Some_lt in Hc. lia.
Qed.

Definition notspace (x : ascii) : bool := negb (Py.isspace x).

(** The loop of [find_col], one iteration at a time. *)
Lemma find_col_loop line start p :
  find_col line start p =
  match get start line with
  | Some c => if p c then start else find_col line (S start) p
  | None => start
  end.
Proof.
  funelim (find_col line start p).
  - rewrite e. reflexivity.
  - rewrite Hc, Heq. reflexivity.
  - rewrite Hc, Heq. reflexivity.
Qed.

Section FindCol.
Variable line : string.
Variable p : ascii -> bool.

(** Induction along the iterations of the loop. *)
Lemma find_col_rect (P : nat -> nat -> Prop) :
  (forall start, get start line = None -> P start start) ->
  (forall start c, get start line = Some c -> p c = true -> P start start) ->
  (forall start c, get start line = Some c -> p c = false ->
     P (S start) (find_col line (S start) p) ->
     P start (find_col line (S start) p)) ->
  forall start, P start (find_col line start p).
Proof.
  intros Hout Hhit Hstep start.
  remember (String.length line - start) as n eqn:Hn.
  revert start Hn.
  induction n as [n IH] using lt_wf_ind; intros start Hn.
  rewrite find_col_loop.
  destruct (get start line) as [c|] eqn:Hc; [|now apply Hout].
  destruct (p c) eqn:Hp; [now apply Hhit with c|].
  apply Hstep with c; trivial.
  apply get_Some_lt in Hc.
  apply (IH (String.length line - S start)); lia.
Qed.

Lemma find_col_ge start : start <= find_col line start p.
Proof.
  apply (find_col_rect (fun s r => s <= r)); intros; lia.
Qed.

Lemma find_col_le start :
  start <= String.length line -> find_col line start p <= String.length line.
Proof.
  apply (find_col_rect (fun s r => s <= String.length line -> r <= String.length line));
    intros; try lia.
  apply get_Some_lt in H. lia.
Qed.

(** Every position skipped over fails the predicate. *)
Lemma find_col_skipped start i :
  start <= i < find_col line start p ->
  exists c, get i line = Some c /\ p c = false.
Proof.
  revert i.
  apply (find_col_rect (fun s r => forall i, s <= i < r ->
           exists c, get i line = Some c /\ p c = false)); intros; try lia.
  destruct (Nat.eq_dec i start0) as [->|Hne]; [eauto|].
  apply H1. lia.
Qed.

(** Where the loop stops inside the line, the predicate holds. *)
Lemma find_col_stop start :
  find_col line start p < String.length line ->
  exists c, get (find_col line start p) line = Some c /\ p c = true.
Proof.
  apply (find_col_rect (fun s r => r < String.length line ->
           exists c, get r line = Some c /\ p c = true)); intros; eauto.
  apply get_None_ge in H. lia.
Qed.

(** The loop makes progress from a position that fails the predicate. *)
Lemma find_col_progress start c :
  get start line = Some c -> p c = false -> start < find_col line start p.
Proof.
  intros Hc Hp. rewrite find_col_loop, Hc, Hp.
  pose proof (find_col_ge (S start)). lia.
Qed.

Lemma find_col_here start c :
  get start line = Some c -> p c = true -> find_col line start p = start.
Proof.
  intros Hc Hp. now rewrite find_col_loop, Hc, Hp.
Qed.

Lemma find_col_outside start :
  String.length line <= start -> find_col line start p = start.
Proof.
  intros H. rewrite find_col_loop.
  destruct (get start line) eqn:E; trivial.
  apply get_Some_lt in E. lia.
Qed.
End FindCol.

(** One iteration of the scanner loop moves the column forward, whatever
    character it starts on. *)
Lemma lex_step_progress line col :
  col < String.length line ->
  col < find_col line (find_col line col Py.isspace) notspace.
Proof.
  intros Hlt. destruct (get_lt_Some line col Hlt) as [c Hc].
  destruct (Py.isspace c) eqn:Hsp.
  - rewrite (find_col_here line Py.isspace col c Hc Hsp).
    apply find_col_progress with c; trivial.
    unfold notspace. now rewrite Hsp.
  - pose proof (find_col_progress line Py.isspace col c Hc Hsp).
    pose proof (find_col_ge line notspace (find_col line col Py.isspace)).
    lia.
Qed.

(** The [while] loop of [lex_line], from the column it has reached; the
    list collects what the generator yields. *)
Equations? lex_loop (line : string) (col : nat) : list (nat * string)
  by wf (String.length line - col) lt :=
  lex_loop line col with lt_dec col (Py.len line) := {
    | left Hlt :=
        (col, Py.slice line col (find_col line col Py.isspace))
        :: lex_loop line (find_col line (find_col line col Py.isspace) notspace)
    | right _ := [] }.
Proof.
  unfold Py.len in Hlt.
  pose proof (lex_step_progress line col Hlt). lia.
Qed.

Definition lex_line (line : string) : list (nat * string) :=
  lex_loop line (find_col line 0 notspace).

Lemma lex_loop_inside line col :
  col < String.length line ->
  lex_loop line col =
  (col, Py.slice line col (find_col line col Py.isspace))
  :: lex_loop line (find_col line (find_col line col Py.isspace) notspace).
Proof.
  intros H. rewrite lex_loop_equation_1.
  destruct (lt_dec col (Py.len line)) as [?|n]; [reflexivity|].
  unfold Py.len in n. lia.
Qed.

Lemma lex_loop_outside line col :
  String.length line <= col -> lex_loop line col = [].
Proof.
  intros H. rewrite lex_loop_equation_1.
  destruct (lt_dec col (Py.len line)) as [l|?]; [|reflexivity].
  unfold Py.len in l. lia.
Qed.

Example lex_line_ex1 :
  lex_line "  10 3   - ." = [(2, "10"); (5, "3"); (9, "-"); (11, ".")].
Proof. reflexivity. Qed.

(** ** What the scanner is specified to return *)

(** Facts about [substring], which carries the slices. *)
Lemma length_substring (s : string) (a l : nat) :
  a + l <= String.length s -> String.length (substring a l s) = l.
Proof.
  revert a l; induction s as [|c s IH]; intros [|a] [|l]; simpl; intros H;
    try lia; rewrite IH; lia.
Qed.

Lemma get_substring (s : string) (a l i : nat) :
  i < l -> get i (substring a l s) = get (a + i) s.
Proof.
  intros H. rewrite (substring_correct1 s a l i H). f_equal. lia.
Qed.

Lemma length_zero_empty (s : string) : String.length s = 0 -> s = "".
Proof. destruct s; simpl; [reflexivity|discriminate]. Qed.

(** The character at index [i] is whitespace, respectively is a character
    of a token; both are false outside the line. *)
Definition space_at (line : string) (i : nat) : bool :=
  match get i line with Some c => Py.isspace c | None => false end.

Definition token_char_at (line : string) (i : nat) : bool :=
  match get i line with Some c => notspace c | None => false end.

(** [text] is a maximal run of non-whitespace characters of [line] that
    starts at the 0-based offset [col]. *)
Definition maximal_run (line : string) (col : nat) (text : string) : Prop :=
  text <> ""
  /\ col + String.length text <= String.length line
  /\ text = substring col (String.length text) line
  /\ (forall i, col <= i < col + String.length text -> token_char_at line i = true)
  /\ (col = 0 \/ space_at line (col - 1) = true)
  /\ (col + String.length text = String.length line
      \/ space_at line (col + String.length text) = true).

Lemma space_not_token line i :
  space_at line i = true -> token_char_at line i = true -> False.
Proof.
  unfold space_at, token_char_at, notspace.
  destruct (get i line) as [c|]; [|discriminate].
  destruct (Py.isspace c); discriminate.
Qed.

Lemma token_char_inside line i :
  token_char_at line i = true -> i < String.length line.
Proof.
  unfold token_char_at. destruct (get i line) eqn:E; [|discriminate].
  intros _. now apply get_Some_lt in E.
Qed.

Lemma space_inside line i :
  space_at line i = true -> i < String.length line.
Proof.
  unfold space_at. destruct (get i line) eqn:E; [|discriminate].
  intros _. now apply get_Some_lt in E.
Qed.

Lemma space_or_token line i :
  i < String.length line -> space_at line i = true \/ token_char_at line i = true.
Proof.
  intros H. destruct (get_lt_Some line i H) as [c Hc].
  unfold space_at, token_char_at, notspace. rewrite Hc.
  destruct (Py.isspace c); auto.
Qed.

(** The two scans of one iteration, in terms of [space_at] and
    [token_char_at]. *)
Lemma scan_token_skipped line col i :
  col <= i < find_col line col Py.isspace -> token_char_at line i = true.
Proof.
  intros H. destruct (find_col_skipped line Py.isspace col i H) as (c & Hc & Hp).
  unfold token_char_at, notspace. now rewrite Hc, Hp.
Qed.

Lemma scan_token_stop line col :
  find_col line col Py.isspace < String.length line ->
  space_at line (find_col line col Py.isspace) = true.
Proof.
  intros H. destruct (find_col_stop line Py.isspace col H) as (c & Hc & Hp).
  unfold space_at. now rewrite Hc.
Qed.

Lemma scan_space_skipped line col i :
  col <= i < find_col line col notspace -> space_at line i = true.
Proof.
  intros H. destruct (find_col_skipped line notspace col i H) as (c & Hc & Hp).
  unfold space_at. rewrite Hc. unfold notspace in Hp.
  now destruct (Py.isspace c).
Qed.

Lemma scan_space_stop line col :
  find_col line col notspace < String.length line ->
  token_char_at line (find_col line col notspace) = true.
Proof.
  intros H. destruct (find_col_stop line notspace col H) as (c & Hc & Hp).
  unfold token_char_at. now rewrite Hc.
Qed.

Lemma scan_token_progress line col :
  token_char_at line col = true -> col < find_col line col Py.isspace.
Proof.
  unfold token_char_at, notspace. destruct (get col line) as [c|] eqn:Hc; [|discriminate].
  intros Hp. apply find_col_progress with c; trivial.
  now destruct (Py.isspace c).
Qed.

(** A column at which a run starts. *)
Definition run_start (line : string) (col : nat) : Prop :=
  token_char_at line col = true /\ (col = 0 \/ space_at line (col - 1) = true).

(** After skipping whitespace, the scanner is at the end of the line or at
    the start of a run. *)
Lemma scan_space_lands line col :
  (col = 0 \/ space_at line (col - 1) = true \/ space_at line col = true) ->
  col <= String.length line ->
  String.length line <= find_col line col notspace
  \/ run_start line (find_col line col notspace).
Proof.
  intros Hcol Hle.
  destruct (le_lt_dec (String.length line) (find_col line col notspace)) as [?|Hlt];
    [now left|right].
  split; [now apply scan_space_stop|].
  pose proof (find_col_ge line notspace col) as Hge.
  destruct (Nat.eq_dec (find_col line col notspace) col) as [E|NE].
  - pose proof (scan_space_stop line col Hlt) as Htok.
    rewrite E in *. destruct Hcol as [?|[?|Hsp]]; auto.
    exfalso. exact (space_not_token line col Hsp Htok).
  - right. apply scan_space_skipped with col. lia.
Qed.

(** The token that one iteration yields is a maximal run. *)
Lemma yielded_is_maximal_run line col :
  run_start line col ->
  maximal_run line col (Py.slice line col (find_col line col Py.isspace)).
Proof.
  intros [Htok Hprev]. unfold Py.slice.
  pose proof (scan_token_progress line col Htok) as Hprog.
  pose proof (token_char_inside line col Htok) as Hin.
  pose proof (find_col_le line Py.isspace col ltac:(lia)) as Hle.
  set (e := find_col line col Py.isspace) in *.
  assert (Hlen : String.length (substring col (e - col) line) = e - col)
    by (apply length_substring; lia).
  unfold maximal_run. rewrite Hlen.
  repeat split.
  - intros E. rewrite E in Hlen. simpl in Hlen. lia.
  - lia.
  - intros i Hi. apply scan_token_skipped with col. fold e. lia.
  - exact Hprev.
  - destruct (Nat.eq_dec e (String.length line)) as [E|NE]; [left; lia|right].
    replace (col + (e - col)) with e by lia.
    apply scan_token_stop. fold e. lia.
Qed.

(** A maximal run that starts where the iteration starts is the token the
    iteration yields. *)
Lemma maximal_run_here line col text :
  maximal_run line col text ->
  text = Py.slice line col (find_col line col Py.isspace).
Proof.
  intros (Hne & Hle & Htxt & Hrun & _ & Hend). unfold Py.slice.
  set (e := find_col line col Py.isspace).
  assert (Hl : String.length text <> 0)
    by (intros E; apply Hne; now apply length_zero_empty).
  assert (E : e = col + String.length text).
  { destruct (lt_eq_lt_dec e (col + String.length text)) as [[Hlt|He]|Hgt]; trivial.
    - exfalso. pose proof (find_col_ge line Py.isspace col). fold e in H.
      apply (space_not_token line e).
      + apply scan_token_stop. fold e. lia.
      + apply Hrun. lia.
    - exfalso. assert (Ht : token_char_at line (col + String.length text) = true).
      { apply scan_token_skipped with col. fold e. lia. }
      destruct Hend as [Hend|Hend].
      + apply token_char_inside in Ht. lia.
      + exact (space_not_token _ _ Hend Ht). }
  rewrite E. replace (col + String.length text - col) with (String.length text) by lia.
  exact Htxt.
Qed.

(** Invariant of the scanner loop: from the start of a run (or from the
    end of the line) it yields exactly the maximal runs that start at or
    after the current column. *)
Lemma lex_loop_spec line col :
  String.length line <= col \/ run_start line col ->
  forall c text,
    In (c, text) (lex_loop line col) <-> maximal_run line c text /\ col <= c.
Proof.
  remember (String.length line - col) as n eqn:Hn. revert col Hn.
  induction n as [n IH] using lt_wf_ind; intros col Hn Hinv c text.
  destruct (le_lt_dec (String.length line) col) as [Hout|Hlt].
  { rewrite lex_loop_outside by trivial. split; [intros []|].
    intros [(Hne & Hle & _) Hc]. exfalso. apply Hne, length_zero_empty. lia. }
  destruct Hinv as [?|Hstart]; [lia|].
  rewrite lex_loop_inside by trivial.
  pose proof (yielded_is_maximal_run line col Hstart) as Hyield.
  destruct Hstart as [Htok Hprev].
  pose proof (scan_token_progress line col Htok) as Hprog.
  pose proof (find_col_le line Py.isspace col ltac:(lia)) as Hle.
  set (e := find_col line col Py.isspace) in *.
  pose proof (find_col_ge line notspace e) as Hge.
  assert (Hnext : String.length line <= find_col line e notspace
                  \/ run_start line (find_col line e notspace)).
  { destruct (Nat.eq_dec e (String.length line)) as [E|NE].
    - left. lia.
    - apply scan_space_lands; [|lia]. right; right.
      apply scan_token_stop. fold e. lia. }
  set (nx := find_col line e notspace) in *.
  specialize (IH (String.length line - nx) ltac:(lia) nx eq_refl Hnext c text).
  simpl. rewrite IH. split.
  - intros [E|[Hrun Hc]].
    + inversion E; subst c text. split; [exact Hyield|lia].
    + split; [exact Hrun|lia].
  - intros [Hrun Hc].
    destruct (Nat.eq_dec c col) as [->|NE].
    { left. f_equal. symmetry. now apply maximal_run_here. }
    right. split; trivial.
    destruct (le_lt_dec nx c) as [?|Hcn]; trivial. exfalso.
    destruct Hrun as (Hne & Hlen & _ & Hchars & Hbefore & _).
    assert (Hl : String.length text <> 0)
      by (intros E; apply Hne; now apply length_zero_empty).
    destruct (le_lt_dec e c) as [Hec|Hce].
    + apply (space_not_token line c).
      * apply scan_space_skipped with e. fold nx. lia.
      * apply Hchars. lia.
    + destruct Hbefore as [?|Hsp]; [lia|].
      apply (space_not_token line (c - 1) Hsp).
      apply scan_token_skipped with col. fold e. lia.
Qed.

(** The columns the loop yields grow strictly. *)
Lemma lex_loop_sorted line col :
  Forall (fun tok => col <= fst tok) (lex_loop line col)
  /\ StronglySorted lt (map fst (lex_loop line col)).
Proof.
  remember (String.length line - col) as n eqn:Hn. revert col Hn.
  induction n as [n IH] using lt_wf_ind; intros col Hn.
  destruct (le_lt_dec (String.length line) col) as [Hout|Hlt].
  { rewrite lex_loop_outside by trivial. split; constructor. }
  rewrite lex_loop_inside by trivial.
  pose proof (lex_step_progress line col Hlt) as Hprog.
  set (nx := find_col line (find_col line col Py.isspace) notspace) in *.
  destruct (IH (String.length line - nx) ltac:(lia) nx eq_refl) as [Hall Hsorted].
  split.
  - constructor; [simpl; lia|].
    eapply Forall_impl; [|exact Hall]. simpl. intros; lia.
  - simpl. constructor; trivial.
    apply Forall_map. eapply Forall_impl; [|exact Hall]. simpl. intros; lia.
Qed.

(** The scanner yields the maximal runs of the line. *)
Lemma lex_line_runs (line : string) (col : nat) (text : string) :
  In (col, text) (lex_line line) <-> maximal_run line col text.
Proof.
  unfold lex_line. rewrite lex_loop_spec.
  - pose proof (find_col_ge line notspace 0).
    split; [tauto|].
    intros Hrun. split; trivial.
    destruct (le_lt_dec (find_col line 0 notspace) col) as [?|Hlt]; trivial.
    exfalso. destruct Hrun as (Hne & _ & _ & Hchars & _).
    apply (space_not_token line col).
    + apply scan_space_skipped with 0. lia.
    + apply Hchars. split; [lia|].
      destruct text; [now elim Hne|simpl; lia].
  - apply scan_space_lands; [now left|lia].
Qed.

(** A line of whitespace yields nothing. *)
Lemma lex_line_whitespace (line : string) :
  (forall i, i < String.length line -> space_at line i = true) ->
  lex_line line = [].
Proof.
  intros Hall. unfold lex_line. apply lex_loop_outside.
  destruct (le_lt_dec (String.length line) (find_col line 0 notspace)) as [?|Hlt];
    trivial.
  exfalso. apply (space_not_token line (find_col line 0 notspace)).
  - now apply Hall.
  - now apply scan_space_stop.
Qed.

(** C4. Scanner correctness: for every line, [lex_line] yields a token
    [(col, text)] exactly when [text] is a maximal run of non-whitespace
    characters of the line starting at the 0-based offset [col]; the tokens
    come in strictly increasing column order, so that every run is yielded
    once and left to right; a line made of whitespace only (or empty) yields
    no token; and no whitespace character occurs in a token text. *)
Theorem lex_line_maximal_runs (line : string) :
  (forall col text, In (col, text) (lex_line line) <-> maximal_run line col text)
  /\ StronglySorted lt (map fst (lex_line line))
  /\ ((forall i, i < String.length line -> space_at line i = true) ->
      lex_line line = [])
  /\ (forall col text i c,
        In (col, text) (lex_line line) -> get i text = Some c ->
        Py.isspace c = false).
Proof.
  split; [apply lex_line_runs|]. split; [|split].
  - apply lex_loop_sorted.
  - apply lex_line_whitespace.
  - intros col text i c Hin Hget.
    apply lex_line_runs in Hin. destruct Hin as (_ & Hle & Htxt & Hchars & _).
    pose proof (get_Some_lt _ _ _ Hget) as Hi.
    specialize (Hchars (col + i) ltac:(lia)).
    rewrite Htxt in Hget. rewrite get_substring in Hget by trivial.
    unfold token_char_at, notspace in Hchars. rewrite Hget in Hchars.
    now destruct (Py.isspace c).
Qed.

Lemma lex_line_maximal_runs_witness : lex_line "   " = [].
Proof.
  apply (proj1 (proj2 (proj2 (lex_line_maximal_runs "   ")))).
  intros i Hi. simpl in Hi.
  destruct i as [|[|[|i]]]; try reflexivity. lia.
Defined.

(* ===================================================================== *)
(** * Operations *)
(* ===================================================================== *)

(** The enumeration [Op]; [Op_name] is its [__str__] and [__repr__]. *)
Inductive Op : Type := OP_PUSH_INT | OP_PLUS | OP_MINUS | OP_DUMP.

Definition Op_name (o : Op) : string :=
  match o with
  | OP_PUSH_INT => "OP_PUSH_INT"
  | OP_PLUS => "OP_PLUS"
  | OP_MINUS => "OP_MINUS"
  | OP_DUMP => "OP_DUMP"
  end.

(** The Python objects that the components of an operation tuple are taken
    from: members of [Op], integers and [None].  The annotation
    [tuple[Op, ...]] is not enforced at run time, so that a tuple may hold
    any of them at any place. *)
Inductive value : Type :=
| VOp (o : Op)
| VInt (n : Z)
| VNone.

Definition tuple : Type := list value.

(** ["%d" % v], ["%s" % v] and [repr(v)]. *)
Definition format_d (v : value) : Py.result string :=
  match v with
  | VInt n => Py.str_int n
  | VOp _ => Py.Raise (Py.mk_exn Py.TypeError "%d format: a real number is required, not Op")
  | VNone => Py.Raise (Py.mk_exn Py.TypeError "%d format: a real number is required, not NoneType")
  end.

Definition format_s (v : value) : Py.result string :=
  match v with
  | VInt n => Py.str_int n
  | VOp o => Py.Ok (Op_name o)
  | VNone => Py.Ok "None"
  end.

Definition repr (v : value) : Py.result string := format_s v.

(* ===================================================================== *)
(** * Operation parser *)
(* ===================================================================== *)

Definition parse_token_as_op (token : string) : Py.result tuple :=
  if (token =? "+")%string then Py.Ok [VOp OP_PLUS]
  else if (token =? "-")%string then Py.Ok [VOp OP_MINUS]
  else if (token =? ".")%string then Py.Ok [VOp OP_DUMP]
  else
    match Py.int token with
    | Some n => Py.Ok [VOp OP_PUSH_INT; VInt n]
    | None => Py.Raise (Py.mk_exn Py.Exception ("Invalid token " ++ token))
    end.

(** What the program does to the outside, in the order it does it:
    a line printed, a call of the code generator, a file written, a child
    process run. *)
Inductive event : Type :=
| Print (text : string)
| Compile (ops : list tuple)
| WriteFile (name content : string)
| Spawn (argv : list string).

(** A located token: file, 0-based row, 0-based column, text. *)
Definition token : Type := (string * nat * nat * string)%type.

Fixpoint enumerate {A : Type} (start : nat) (l : list A) : list (nat * A) :=
  match l with
  | [] => []
  | x :: l' => (start, x) :: enumerate (S start) l'
  end.

(** The tokens of the lines of a file, as the comprehension of [lex_file]
    lists them. *)
Definition lex_lines (file : string) (lines : list string) : list token :=
  flat_map (fun '(row, line) =>
              map (fun '(col, text) => (file, row, col, text)) (lex_line line))
           (enumerate 0 lines).

(** The loop of [parse_file] from the tokens that remain and the list
    [ops] built so far; what it prints, and what it returns. *)
Fixpoint parse_loop (tokens : list token) (ops : list tuple)
  : list event * Py.result (list tuple) :=
  match tokens with
  | [] => ([], Py.Ok ops)
  | (file, row, col, text) :: rest =>
      match parse_token_as_op text with
      | Py.Ok op => parse_loop rest (ops ++ [op])
      | Py.Raise e =>
          match (r <- Py.str_int (Z.of_nat row + 1) ;;
                 c <- Py.str_int (Z.of_nat col + 1) ;;
                 Py.Ok ("Error at " ++ file ++ ":" ++ r ++ ":" ++ c ++ ": "
                        ++ Py.exn_msg e)) with
          | Py.Ok line => ([Print line], Py.Ok [])
          | Py.Raise e' => ([], Py.Raise e')
          end
      end
  end.

(* ===================================================================== *)
(** * Code generator *)
(* ===================================================================== *)

(** The loop of [compile_ops] over the operations that remain, from the
    text [out] emitted so far. *)
Fixpoint compile_loop (ops : list tuple) (out : string) : Py.result string :=
  match ops with
  | [] => Py.Ok out
  | [] :: _ =>
      Py.Raise (Py.mk_exn Py.ValueError
        "not enough values to unpack (expected at least 1, got 0)")
  | (op :: args) :: rest =>
      match op with
      | VOp OP_PUSH_INT =>
          match args with
          | [] => Py.Raise (Py.mk_exn Py.IndexError "list index out of range")
          | arg :: _ =>
              a <- format_d arg ;;
              let out := out ++ "    ;; -- push " ++ a ++ " --" ++ Py.nl in
              a <- format_d arg ;;
              let out := out ++ "    push " ++ a ++ Py.nl in
              compile_loop rest out
          end
      | VOp OP_PLUS =>
          let out := out ++ "    ;; -- add --" ++ Py.nl in
          let out := out ++ "    pop rax" ++ Py.nl in
          let out := out ++ "    pop rbx" ++ Py.nl in
          let out := out ++ "    add rax, rbx" ++ Py.nl in
          let out := out ++ "    push rax" ++ Py.nl in
          compile_loop rest out
      | VOp OP_MINUS =>
          let out := out ++ "    ;; -- sub --" ++ Py.nl in
          let out := out ++ "    pop rax" ++ Py.nl in
          let out := out ++ "    pop rbx" ++ Py.nl in
          let out := out ++ "    sub rbx, rax" ++ Py.nl in
          let out := out ++ "    push rbx" ++ Py.nl in
          compile_loop rest out
      | VOp OP_DUMP =>
          let out := out ++ "    ;; -- dump --" ++ Py.nl in
          let out := out ++ "    pop rdi" ++ Py.nl in
          let out := out ++ "    call dump" ++ Py.nl in
          compile_loop rest out
      | _ =>
          name <- format_s op ;;
          Py.Raise (Py.mk_exn Py.Exception ("Invalid op " ++ name))
      end
  end.

Definition compile_ops (ops : list tuple) : Py.result string :=
  let out := "BITS 64" ++ Py.nl in
  let out := out ++ "segment .text" ++ Py.nl in
  let out := out ++ "dump:" ++ Py.nl in
  let out := out ++ "    mov     r9, -3689348814741910323" ++ Py.nl in
  let out := out ++ "    sub     rsp, 40" ++ Py.nl in
  let out := out ++ "    mov     BYTE [rsp+31], 10" ++ Py.nl in
  let out := out ++ "    lea     rcx, [rsp+30]" ++ Py.nl in
  let out := out ++ ".L2:" ++ Py.nl in
  let out := out ++ "    mov     rax, rdi" ++ Py.nl in
  let out := out ++ "    lea     r8, [rsp+32]" ++ Py.nl in
  let out := out ++ "    mul     r9" ++ Py.nl in
  let out := out ++ "    mov     rax, rdi" ++ Py.nl in
  let out := out ++ "    sub     r8, rcx" ++ Py.nl in
  let out := out ++ "    shr     rdx, 3" ++ Py.nl in
  let out := out ++ "    lea     rsi, [rdx+rdx*4]" ++ Py.nl in
  let out := out ++ "    add     rsi, rsi" ++ Py.nl in
  let out := out ++ "    sub     rax, rsi" ++ Py.nl in
  let out := out ++ "    add     eax, 48" ++ Py.nl in
  let out := out ++ "    mov     BYTE [rcx], al" ++ Py.nl in
  let out := out ++ "    mov     rax, rdi" ++ Py.nl in
  let out := out ++ "    mov     rdi, rdx" ++ Py.nl in
  let out := out ++ "    mov     rdx, rcx" ++ Py.nl in
  let out := out ++ "    sub     rcx, 1" ++ Py.nl in
  let out := out ++ "    cmp     rax, 9" ++ Py.nl in
  let out := out ++ "    ja      .L2" ++ Py.nl in
  let out := out ++ "    lea     rax, [rsp+32]" ++ Py.nl in
  let out := out ++ "    mov     edi, 1" ++ Py.nl in
  let out := out ++ "    sub     rdx, rax" ++ Py.nl in
  let out := out ++ "    xor     eax, eax" ++ Py.nl in
  let out := out ++ "    lea     rsi, [rsp+32+rdx]" ++ Py.nl in
  let out := out ++ "    mov     rdx, r8" ++ Py.nl in
  let out := out ++ "    mov     rax, 1" ++ Py.nl in
  let out := out ++ "    syscall" ++ Py.nl in
  let out := out ++ "    add     rsp, 40" ++ Py.nl in
  let out := out ++ "    ret" ++ Py.nl in
  let out := out ++ "global _start" ++ Py.nl in
  let out := out ++ "_start:" ++ Py.nl in
  out <- compile_loop ops out ;;
  let out := out ++ "    ;; -- exit --" ++ Py.nl in
  let out := out ++ "    mov rax, 60" ++ Py.nl in
  let out := out ++ "    mov rdi, 0" ++ Py.nl in
  let out := out ++ "    syscall" ++ Py.nl in
  Py.Ok out.

(* ===================================================================== *)
(** * Driver *)
(* ===================================================================== *)

(** [repr] of a tuple and of a list of tuples, as [print(ops)] shows
    them. *)
Fixpoint repr_items (vs : list value) : Py.result string :=
  match vs with
  | [] => Py.Ok ""
  | [v] => repr v
  | v :: vs' => a <- repr v ;; b <- repr_items vs' ;; Py.Ok (a ++ ", " ++ b)
  end.

Definition repr_tuple (t : tuple) : Py.result string :=
  match t with
  | [v] => a <- repr v ;; Py.Ok ("(" ++ a ++ ",)")
  | _ => a <- repr_items t ;; Py.Ok ("(" ++ a ++ ")")
  end.

Fixpoint repr_tuples (ts : list tuple) : Py.result string :=
  match ts with
  | [] => Py.Ok ""
  | [t] => repr_tuple t
  | t :: ts' => a <- repr_tuple t ;; b <- repr_tuples ts' ;; Py.Ok (a ++ ", " ++ b)
  end.

Definition repr_ops (ops : list tuple) : Py.result string :=
  a <- repr_tuples ops ;; Py.Ok ("[" ++ a ++ "]").

Section Environment.

(** The world around the program: [read_lines file] is what
    [open(file, 'r')] followed by [readlines()] gives, [write_file] is
    [open(name, 'w')] followed by [write], and [spawn] is [subprocess.run];
    each may raise instead ([None] for the latter two means that nothing is
    raised). *)
Variable read_lines : string -> Py.result (list string).
Variable write_file : string -> string -> option Py.exn.
Variable spawn : list string -> option Py.exn.

Definition lex_file (file : string) : Py.result (list token) :=
  lines <- read_lines file ;; Py.Ok (lex_lines file lines).

Definition parse_file (file : string) : list event * Py.result (list tuple) :=
  match lex_file file with
  | Py.Ok tokens => parse_loop tokens []
  | Py.Raise e => ([], Py.Raise e)
  end.

(** A statement with an effect inside the [try] block of [main]: its
    event, then the rest unless it raises. *)
Definition attempt (ev : event) (raised : option Py.exn)
  (rest : list event * Py.result unit) : list event * Py.result unit :=
  match raised with
  | Some e => ([ev], Py.Raise e)
  | None => (ev :: fst rest, snd rest)
  end.

(** The body of the [try] block of [main]. *)
Definition compile_and_run (ops : list tuple) : list event * Py.result unit :=
  match compile_ops ops with
  | Py.Raise e => ([Compile ops], Py.Raise e)
  | Py.Ok out =>
      let run :=
        attempt (WriteFile "out.asm" out) (write_file "out.asm" out)
        (attempt (Print "Compiled to out.asm") None
        (attempt (Print "Running nasm...") None
        (attempt (Spawn ["nasm"; "-felf64"; "out.asm"])
                 (spawn ["nasm"; "-felf64"; "out.asm"])
        (attempt (Print "Linking...") None
        (attempt (Spawn ["ld"; "-o"; "out"; "out.o"])
                 (spawn ["ld"; "-o"; "out"; "out.o"])
        (attempt (Print "Running...") None
        (attempt (Spawn ["./out"]) (spawn ["./out"])
        ([], Py.Ok tt)))))))) in
      (Compile ops :: fst run, snd run)
  end.

(** [main], from [sys.argv]: the events of the run and the exception that
    ends it, if one is left uncaught. *)
Definition main (argv : list string) : list event * option Py.exn :=
  if (List.length argv <? 2)%nat then ([Print "Usage: main.py <file>"], None)
  else
    let (printed, parsed) := parse_file (nth 1 argv "") in
    match parsed with
    | Py.Raise e => (printed, Some e)
    | Py.Ok ops =>
        match repr_ops ops with
        | Py.Raise e => (printed, Some e)
        | Py.Ok text =>
            if (List.length ops =? 0)%nat then ((printed ++ [Print text])%list, None)
            else
              let (events, outcome) := compile_and_run ops in
              match outcome with
              | Py.Ok _ => ((printed ++ Print text :: events)%list, None)
              | Py.Raise e =>
                  ((printed ++ Print text :: events ++ [Print (Py.exn_msg e)])%list, None)
              end
        end
    end.

End Environment.

(* ===================================================================== *)
(** * The data model of the specification *)
(* ===================================================================== *)

(** An operation as the specification describes it, and the tuple that
    stands for it in the program. *)
Inductive Operation : Type :=
| PushInt (value : Z)
| Plus
| Minus
| Dump.

Definition Program : Type := list Operation.

Definition encode (o : Operation) : tuple :=
  match o with
  | PushInt v => [VOp OP_PUSH_INT; VInt v]
  | Plus => [VOp OP_PLUS]
  | Minus => [VOp OP_MINUS]
  | Dump => [VOp OP_DUMP]
  end.

(** A value that fits a 64-bit signed integer. *)
Definition int64 (v : Z) : Prop := (- 2 ^ 63 <= v < 2 ^ 63)%Z.

Definition operand_int64 (o : Operation) : Prop :=
  match o with
  | PushInt v => int64 v
  | _ => True
  end.

(** ** The parts of the assembly text *)

Definition ln (s : string) : string := s ++ Py.nl.

(** The directives and the runtime subroutine [dump]. *)
Definition prologue : string :=
  ln "BITS 64" ++
  ln "segment .text" ++
  ln "dump:" ++
  ln "    mov     r9, -3689348814741910323" ++
  ln "    sub     rsp, 40" ++
  ln "    mov     BYTE [rsp+31], 10" ++
  ln "    lea     rcx, [rsp+30]" ++
  ln ".L2:" ++
  ln "    mov     rax, rdi" ++
  ln "    lea     r8, [rsp+32]" ++
  ln "    mul     r9" ++
  ln "    mov     rax, rdi" ++
  ln "    sub     r8, rcx" ++
  ln "    shr     rdx, 3" ++
  ln "    lea     rsi, [rdx+rdx*4]" ++
  ln "    add     rsi, rsi" ++
  ln "    sub     rax, rsi" ++
  ln "    add     eax, 48" ++
  ln "    mov     BYTE [rcx], al" ++
  ln "    mov     rax, rdi" ++
  ln "    mov     rdi, rdx" ++
  ln "    mov     rdx, rcx" ++
  ln "    sub     rcx, 1" ++
  ln "    cmp     rax, 9" ++
  ln "    ja      .L2" ++
  ln "    lea     rax, [rsp+32]" ++
  ln "    mov     edi, 1" ++
  ln "    sub     rdx, rax" ++
  ln "    xor     eax, eax" ++
  ln "    lea     rsi, [rsp+32+rdx]" ++
  ln "    mov     rdx, r8" ++
  ln "    mov     rax, 1" ++
  ln "    syscall" ++
  ln "    add     rsp, 40" ++
  ln "    ret".

Definition entry_point : string :=
  ln "global _start" ++
  ln "_start:".

(** The exit system call ([rax = 60]) with exit code [rdi = 0]. *)
Definition epilogue : string :=
  ln "    ;; -- exit --" ++
  ln "    mov rax, 60" ++
  ln "    mov rdi, 0" ++
  ln "    syscall".

(** The instruction template of each operation. *)
Definition push_template (v : Z) : string :=
  ln ("    ;; -- push " ++ Py.decimal v ++ " --") ++
  ln ("    push " ++ Py.decimal v).

Definition plus_template : string :=
  ln "    ;; -- add --" ++
  ln "    pop rax" ++
  ln "    pop rbx" ++
  ln "    add rax, rbx" ++
  ln "    push rax".

Definition minus_template : string :=
  ln "    ;; -- sub --" ++
  ln "    pop rax" ++
  ln "    pop rbx" ++
  ln "    sub rbx, rax" ++
  ln "    push rbx".

Definition dump_template : string :=
  ln "    ;; -- dump --" ++
  ln "    pop rdi" ++
  ln "    call dump".

Definition template (o : Operation) : string :=
  match o with
  | PushInt v => push_template v
  | Plus => plus_template
  | Minus => minus_template
  | Dump => dump_template
  end.

(** The templates of a program, one after the other. *)
Fixpoint body (prog : Program) : string :=
  match prog with
  | [] => ""
  | o :: prog' => template o ++ body prog'
  end.

(* ===================================================================== *)
(** * Facts about decimal text *)
(* ===================================================================== *)

Lemma append_assoc (a b c : string) : (a ++ b) ++ c = a ++ b ++ c.
Proof. induction a as [|x a IH]; simpl; [reflexivity|now rewrite IH]. Qed.

Lemma append_nil_r (a : string) : a ++ "" = a.
Proof. induction a as [|x a IH]; simpl; [reflexivity|now rewrite IH]. Qed.

Lemma length_append (a b : string) :
  String.length (a ++ b) = String.length a + String.length b.
Proof. induction a as [|x a IH]; simpl; [reflexivity|now rewrite IH]. Qed.

Lemma usize_nb_digits (d : uint) :
  Unsigned.usize d = N.of_nat (nb_digits d).
Proof.
  induction d; cbn [Unsigned.usize nb_digits];
    rewrite ?Nat2N.inj_succ, ?IHd; reflexivity.
Qed.

Lemma of_lu_bound (d : uint) :
  (Unsigned.of_lu d < 10 ^ Unsigned.usize d)%N.
Proof.
  induction d; cbn [Unsigned.of_lu Unsigned.usize];
    rewrite ?N.pow_succ_r', ?N.pow_0_r; lia.
Qed.

(** A numeral of [n] digits denotes a number below [10 ^ n]. *)
Lemma of_uint_bound (d : uint) :
  (N.of_uint d < 10 ^ N.of_nat (nb_digits d))%N.
Proof.
  unfold N.of_uint. rewrite Unsigned.of_uint_alt.
  rewrite <- (nb_digits_rev d), <- usize_nb_digits.
  apply of_lu_bound.
Qed.

(** A numeral without leading zeros has no more digits than its value
    needs. *)
Lemma normal_digits_bound (d : uint) (k : nat) :
  unorm d = d -> 1 <= k -> (Pos.of_uint d < 10 ^ N.of_nat k)%N ->
  nb_digits d <= k.
Proof.
  intros Hnorm Hk Hlt.
  assert (Hlead : forall d' acc,
             (N.pos (Pos.of_uint_acc d' acc) < 10 ^ N.of_nat k)%N ->
             S (nb_digits d') <= k).
  { intros d' acc H. rewrite Unsigned.of_uint_acc_rev in H.
    assert (H' : (10 ^ Unsigned.usize d' < 10 ^ N.of_nat k)%N) by nia.
    apply N.pow_lt_mono_r_iff in H'; [|lia].
    rewrite usize_nb_digits in H'. lia. }
  destruct d as [|d'|d'|d'|d'|d'|d'|d'|d'|d'|d']; simpl nb_digits;
    try (simpl in Hlt; now apply Hlead in Hlt).
  - lia.
  - rewrite unorm_D0 in Hnorm. unfold unorm in Hnorm.
    destruct (nzhead d') eqn:E; try discriminate;
      try (exfalso; revert E; rewrite Hnorm; apply nzhead_nonzero).
    injection Hnorm as <-. simpl. lia.
Qed.

(** The number of digits of a number below [10 ^ k]. *)
Lemma ndigits_bound (z : Z) (k : nat) :
  1 <= k -> (Z.abs z < 10 ^ Z.of_nat k)%Z -> Py.ndigits z <= k.
Proof.
  intros Hk Hz. unfold Py.ndigits.
  set (n := Z.abs_N z).
  assert (Hn : (n < 10 ^ N.of_nat k)%N).
  { apply N2Z.inj_lt. unfold n. rewrite N2Z.inj_abs_N, N2Z.inj_pow.
    now rewrite nat_N_Z. }
  apply normal_digits_bound; trivial.
  - pose proof (DecimalN.Unsigned.to_of (N.to_uint n)) as H.
    rewrite DecimalN.Unsigned.of_to in H. now symmetry.
  - change (Pos.of_uint (N.to_uint n)) with (N.of_uint (N.to_uint n)).
    now rewrite DecimalN.Unsigned.of_to.
Qed.

(** Integers of the data model have a decimal text. *)
Lemma str_int_int64 (v : Z) : int64 v -> Py.str_int v = Py.Ok (Py.decimal v).
Proof.
  intros Hv. unfold Py.str_int, Py.exceeds_limit.
  assert (H : Py.ndigits v <= 19).
  { apply ndigits_bound; [lia|]. unfold int64 in Hv. simpl Z.of_nat. lia. }
  replace (Py.int_max_str_digits <? Py.ndigits v)%nat with false.
  - now rewrite andb_false_r.
  - symmetry. apply Nat.ltb_ge. unfold Py.int_max_str_digits. lia.
Qed.

(* ===================================================================== *)
(** * Code generation of well-formed programs *)
(* ===================================================================== *)

(** An operation whose operand, if it has one, has a decimal text. *)
Definition operand_printable (o : Operation) : Prop :=
  match o with
  | PushInt v => Py.str_int v = Py.Ok (Py.decimal v)
  | _ => True
  end.

Lemma operand_int64_printable (o : Operation) :
  operand_int64 o -> operand_printable o.
Proof. destruct o; simpl; trivial. apply str_int_int64. Qed.

(** The loop appends the templates of the operations, in their order, to
    what was emitted before. *)
Lemma compile_loop_body (prog : Program) (out : string) :
  Forall operand_printable prog ->
  compile_loop (map encode prog) out = Py.Ok (out ++ body prog).
Proof.
  intros Hall. revert out.
  induction Hall as [|o prog Ho _ IH]; intros out;
    cbn [map encode compile_loop body template].
  - now rewrite append_nil_r.
  - destruct o as [v| | |]; cbn [encode operand_printable format_d template] in *;
      rewrite ?Ho; cbn [Py.bind]; rewrite IH; f_equal;
      unfold push_template, plus_template, minus_template, dump_template, ln;
      now rewrite !append_assoc.
Qed.

(** The text around the loop is the prologue and the entry point before
    it and the epilogue after it. *)
Lemma compile_ops_frame (ops : list tuple) :
  compile_ops ops =
  (out <- compile_loop ops (prologue ++ entry_point) ;; Py.Ok (out ++ epilogue)).
Proof.
  unfold compile_ops.
  cbv zeta.
  match goal with
  | |- Py.bind (compile_loop ops ?h) _ = Py.bind (compile_loop ops ?h') _ =>
      replace h with h' by (vm_compute; reflexivity)
  end.
  destruct (compile_loop ops _) as [out|e]; cbn [Py.bind]; [|reflexivity].
  f_equal. unfold epilogue, ln. now rewrite !append_assoc.
Qed.

Lemma compile_ops_program (prog : Program) :
  Forall operand_printable prog ->
  compile_ops (map encode prog) =
  Py.Ok (prologue ++ entry_point ++ body prog ++ epilogue).
Proof.
  intros Hall. rewrite compile_ops_frame, compile_loop_body by trivial.
  cbn [Py.bind]. now rewrite !append_assoc.
Qed.

(* ===================================================================== *)
(** * Integer literals *)
(* ===================================================================== *)

(** Decimal digits with single underscores between them, and the numeral
    that the digits spell:
    [body ::= digit | digit body | digit "_" body].
    [uint_of_char c (Some d) = Some d'] says that [c] is a decimal digit
    and that [d'] is [d] with this digit in front. *)
Inductive digit_groups : string -> uint -> Prop :=
| dg_last c d' :
    uint_of_char c (Some Nil) = Some d' ->
    digit_groups (String c "") d'
| dg_digit c s d d' :
    digit_groups s d -> uint_of_char c (Some d) = Some d' ->
    digit_groups (String c s) d'
| dg_under c s d d' :
    digit_groups s d -> uint_of_char c (Some d) = Some d' ->
    digit_groups (String c (String "_" s)) d'.

(** The texts that [int()] accepts, with their values: surrounding
    whitespace, an optional sign [+] or [-], then digits with single
    underscores between them, at most [int_max_str_digits] digits. *)
Definition int_literal (text : string) (v : Z) : Prop :=
  exists sign body d,
    Py.strip text = sign ++ body
    /\ digit_groups body d
    /\ nb_digits d <= Py.int_max_str_digits
    /\ ((sign = "" \/ sign = "+") /\ v = Z.of_uint d
        \/ sign = "-" /\ v = (- Z.of_uint d)%Z).

(** The form of an integer token in the words of the specification: an
    optional leading [-] followed by digits only. *)
Definition is_digit (c : ascii) : bool :=
  let n := nat_of_ascii c in ((48 <=? n) && (n <=? 57))%nat.

Fixpoint digits_only (s : string) : bool :=
  match s with
  | EmptyString => true
  | String c s' => is_digit c && digits_only s'
  end.

Definition spec_integer_text (text : string) : bool :=
  match text with
  | String "-" r => negb (r =? "")%string && digits_only r
  | _ => negb (text =? "")%string && digits_only text
  end.

(** What the scan of the digits accepts once a digit has been read. *)
Definition after_digit_groups (s : string) (d : uint) : Prop :=
  (s = "" /\ d = Nil)
  \/ digit_groups s d
  \/ exists s', s = String "_" s' /\ digit_groups s' d.

Lemma uint_of_char_Some c r d :
  uint_of_char c r = Some d ->
  exists d0, r = Some d0 /\ uint_of_char c (Some d0) = Some d.
Proof. destruct r as [d0|]; [eauto|discriminate]. Qed.

Lemma uint_of_char_underscore r : uint_of_char "_" r = None.
Proof. now destruct r. Qed.

Lemma digit_groups_head s d :
  digit_groups s d ->
  exists c r, s = String c r /\ c <> "_"%char /\ c <> "+"%char /\ c <> "-"%char.
Proof.
  intros H.
  assert (Hc : forall c d0 d1, uint_of_char c (Some d0) = Some d1 ->
             c <> "_"%char /\ c <> "+"%char /\ c <> "-"%char).
  { intros c d0 d1 Hu. repeat split; intros ->; discriminate. }
  destruct H; eauto.
Qed.

Lemma scan_digits_spec (s : string) :
  forall d,
    (Py.scan_digits s false = Some d <-> digit_groups s d)
    /\ (Py.scan_digits s true = Some d <-> after_digit_groups s d).
Proof.
  induction s as [|c s IH]; intros d.
  - split; simpl; split.
    + discriminate.
    + intros H. inversion H.
    + intros [= <-]. now left.
    + intros [[_ ->]|[H|(s' & H & _)]]; [reflexivity|inversion H|discriminate].
  - destruct (Ascii.eqb_spec c "_") as [->|Hc].
    + split; simpl; split.
      * discriminate.
      * intros H. inversion H; subst; discriminate.
      * intros H. right; right. exists s. split; trivial. now apply IH.
      * intros [[H _]|[H|(s' & [= <-] & H)]]; [discriminate| |now apply IH].
        inversion H; subst; discriminate.
    + assert (Hstep : forall b, Py.scan_digits (String c s) b
                                = uint_of_char c (Py.scan_digits s true)).
      { intros b. simpl. destruct (Ascii.eqb_spec c "_"); [contradiction|].
        reflexivity. }
      assert (Hgroups : uint_of_char c (Py.scan_digits s true) = Some d
                        <-> digit_groups (String c s) d).
      { split.
        - intros H. apply uint_of_char_Some in H. destruct H as (d0 & Hs & Hu).
          apply IH in Hs. destruct Hs as [[-> ->]|[Hs|(s' & -> & Hs)]].
          + now apply dg_last.
          + now apply dg_digit with d0.
          + now apply dg_under with d0.
        - intros H. inversion H; subst.
          + simpl. assumption.
          + match goal with Hs : digit_groups s _ |- _ =>
              assert (Hs' : after_digit_groups s d0) by (right; now left) end.
            apply IH in Hs'. now rewrite Hs'.
          + match goal with Hs : digit_groups ?t d0 |- _ =>
              assert (Hs' : after_digit_groups (String "_" t) d0)
                by (right; right; eauto) end.
            apply IH in Hs'. now rewrite Hs'. }
      split; rewrite Hstep, Hgroups; [reflexivity|].
      split; [intros H; right; now left|].
      intros [[H _]|[H|(s' & [= ? _] & _)]]; [discriminate|trivial|contradiction].
Qed.

(** [int()] accepts exactly the literals, with their values. *)
Lemma int_spec (text : string) (v : Z) :
  Py.int text = Some v <-> int_literal text v.
Proof.
  unfold Py.int, int_literal. split.
  - destruct (Py.split_sign (Py.strip text)) as [negative body] eqn:Hsign.
    destruct (Py.scan_digits body false) as [d|] eqn:Hscan; [|discriminate].
    destruct (Py.exceeds_limit (nb_digits d)) eqn:Hlim; [discriminate|].
    intros [= <-].
    assert (Hd : nb_digits d <= Py.int_max_str_digits).
    { unfold Py.exceeds_limit in Hlim. apply andb_false_iff in Hlim.
      destruct Hlim as [H|H]; [discriminate|]. now apply Nat.ltb_ge in H. }
    apply (scan_digits_spec body d) in Hscan.
    assert (Hcases : (negative = false /\ Py.strip text = body)
                     \/ (negative = false /\ Py.strip text = "+" ++ body)
                     \/ (negative = true /\ Py.strip text = "-" ++ body)).
    { unfold Py.split_sign in Hsign.
      destruct (Py.strip text) as [|c r]; [injection Hsign as <- <-; auto|].
      destruct (Ascii.eqb_spec c "+") as [->|Hp];
        [injection Hsign as <- <-; auto|].
      destruct (Ascii.eqb_spec c "-") as [->|Hm];
        [injection Hsign as <- <-; auto|].
      left.
      destruct c as [[|] [|] [|] [|] [|] [|] [|] [|]];
        try (injection Hsign as <- <-; auto); contradiction. }
    destruct Hcases as [[-> E]|[[-> E]|[-> E]]].
    + exists "", body, d. auto 10.
    + exists "+", body, d. auto 10.
    + exists "-", body, d. auto 10.
  - intros (sign & body & d & Hstrip & Hgroups & Hd & Hv).
    rewrite Hstrip.
    assert (Hsplit : Py.split_sign (sign ++ body)
                     = ((sign =? "-")%string, body)).
    { destruct (digit_groups_head body d Hgroups) as (c & r & -> & _ & Hp & Hm).
      destruct Hv as [[[->| ->] _]|[-> _]]; try reflexivity.
      simpl.
      destruct c as [[|] [|] [|] [|] [|] [|] [|] [|]];
        try reflexivity; contradiction. }
    rewrite Hsplit.
    apply (scan_digits_spec body d) in Hgroups. rewrite Hgroups.
    replace (Py.exceeds_limit (nb_digits d)) with false.
    + destruct Hv as [[[->| ->] ->]|[-> ->]]; reflexivity.
    + symmetry. unfold Py.exceeds_limit. apply andb_false_iff. right.
      now apply Nat.ltb_ge.
Qed.

(** ** Sizes *)

Lemma digit_groups_length body d :
  digit_groups body d -> nb_digits d <= String.length body.
Proof.
  assert (Hc : forall c d0 d1, uint_of_char c (Some d0) = Some d1 ->
             nb_digits d1 = S (nb_digits d0)).
  { intros c d0 d1 H. apply uint_of_char_spec in H.
    repeat (destruct H as [[_ ->]|H]; [reflexivity|]).
    destruct H as [_ ->]. reflexivity. }
  induction 1 as [c d' Hu|c s d d' _ IH Hu|c s d d' _ IH Hu];
    apply Hc in Hu; rewrite Hu; simpl in *; lia.
Qed.

Lemma length_lstrip s : String.length (Py.lstrip s) <= String.length s.
Proof.
  induction s as [|c s IH]; simpl; [lia|].
  destruct (Py.int_space c); simpl; lia.
Qed.

Lemma length_rstrip s : String.length (Py.rstrip s) <= String.length s.
Proof.
  induction s as [|c s IH]; simpl; [lia|].
  destruct (Py.rstrip s); [destruct (Py.int_space c)|]; simpl in *; lia.
Qed.

Lemma length_strip s : String.length (Py.strip s) <= String.length s.
Proof.
  unfold Py.strip. pose proof (length_rstrip (Py.lstrip s)).
  pose proof (length_lstrip s). lia.
Qed.

(** The value of a literal is below [10 ^ n] in magnitude, for [n] the
    length of the text. *)
Lemma int_literal_bound text v :
  int_literal text v ->
  exists n, 1 <= n <= String.length text /\ n <= Py.int_max_str_digits
            /\ (Z.abs v < 10 ^ Z.of_nat n)%Z.
Proof.
  intros (sign & body & d & Hstrip & Hgroups & Hd & Hv).
  exists (nb_digits d).
  pose proof (digit_groups_length body d Hgroups) as Hlen.
  pose proof (length_strip text) as Hs. rewrite Hstrip, length_append in Hs.
  assert (Hpos : 1 <= nb_digits d).
  { destruct d; simpl; try lia. inversion Hgroups; subst;
      match goal with H : uint_of_char _ _ = Some Nil |- _ =>
        apply uint_of_char_spec in H; decompose [or and] H; discriminate end. }
  assert (Hval : (0 <= Z.of_uint d < 10 ^ Z.of_nat (nb_digits d))%Z).
  { unfold Z.of_uint. split; [apply N2Z.is_nonneg|].
    pose proof (of_uint_bound d) as H. apply N2Z.inj_lt in H.
    rewrite N2Z.inj_pow, nat_N_Z in H. exact H. }
  destruct Hv as [[_ ->]|[_ ->]]; repeat split; lia.
Qed.

(** A text that contains no whitespace is left as it is by [strip]. *)
Lemma int_space_isspace c : Py.int_space c = true -> Py.isspace c = true.
Proof.
  destruct c as [[|] [|] [|] [|] [|] [|] [|] [|]]; intros H;
    solve [reflexivity | discriminate H].
Qed.

Definition no_whitespace (s : string) : Prop :=
  forall i c, get i s = Some c -> Py.isspace c = false.

Lemma no_whitespace_tail c s : no_whitespace (String c s) -> no_whitespace s.
Proof. intros H i a Ha. apply (H (S i)). exact Ha. Qed.

Lemma no_whitespace_head c s :
  no_whitespace (String c s) -> Py.int_space c = false.
Proof.
  intros H. specialize (H 0 c eq_refl).
  destruct (Py.int_space c) eqn:E; trivial.
  apply int_space_isspace in E. congruence.
Qed.

Lemma strip_no_whitespace s : no_whitespace s -> Py.strip s = s.
Proof.
  intros H. unfold Py.strip.
  assert (Hl : Py.lstrip s = s).
  { destruct s as [|c s]; simpl; trivial.
    now rewrite (no_whitespace_head c s H). }
  rewrite Hl. clear Hl.
  induction s as [|c s IH]; simpl; trivial.
  rewrite (IH (no_whitespace_tail c s H)).
  destruct s; trivial. now rewrite (no_whitespace_head c "" H).
Qed.

(* ===================================================================== *)
(** * Token classification *)
(* ===================================================================== *)

Definition invalid_token (text : string) : Py.exn :=
  Py.mk_exn Py.Exception ("Invalid token " ++ text).

Lemma parse_token_as_op_other (text : string) :
  text <> "+" -> text <> "-" -> text <> "." ->
  parse_token_as_op text =
  match Py.int text with
  | Some n => Py.Ok [VOp OP_PUSH_INT; VInt n]
  | None => Py.Raise (invalid_token text)
  end.
Proof.
  intros Hp Hm Hd. unfold parse_token_as_op.
  destruct (String.eqb_spec text "+"); [contradiction|].
  destruct (String.eqb_spec text "-"); [contradiction|].
  destruct (String.eqb_spec text "."); [contradiction|].
  reflexivity.
Qed.

Lemma parse_token_as_op_push_int (text : string) (v : Z) :
  parse_token_as_op text = Py.Ok [VOp OP_PUSH_INT; VInt v] ->
  Py.int text = Some v.
Proof.
  unfold parse_token_as_op.
  destruct (text =? "+")%string; [discriminate|].
  destruct (text =? "-")%string; [discriminate|].
  destruct (text =? ".")%string; [discriminate|].
  destruct (Py.int text); [|discriminate].
  now intros [= ->].
Qed.

(** C1, as the code has it.  The tokens [+], [-] and [.] yield [OP_PLUS],
    [OP_MINUS] and [OP_DUMP]; every other token yields
    [(OP_PUSH_INT, v)] exactly when its text is an integer literal of value
    [v] in the sense of [int()], that is an optional sign [+] or [-]
    followed by decimal digits with single underscores allowed between
    digits, at most 4300 digits, surrounding whitespace being ignored; and
    it raises [Invalid token <text>] exactly when the text is no such
    literal.  A text without whitespace, as every token of the scanner, is
    not changed by the removal of surrounding whitespace. *)
Theorem parse_token_as_op_classification :
  parse_token_as_op "+" = Py.Ok [VOp OP_PLUS]
  /\ parse_token_as_op "-" = Py.Ok [VOp OP_MINUS]
  /\ parse_token_as_op "." = Py.Ok [VOp OP_DUMP]
  /\ forall text, text <> "+" -> text <> "-" -> text <> "." ->
       (forall v, parse_token_as_op text = Py.Ok [VOp OP_PUSH_INT; VInt v]
                  <-> int_literal text v)
       /\ (parse_token_as_op text = Py.Raise (invalid_token text)
           <-> forall v, ~ int_literal text v)
       /\ ((exists v, parse_token_as_op text = Py.Ok [VOp OP_PUSH_INT; VInt v])
           \/ parse_token_as_op text = Py.Raise (invalid_token text))
       /\ (no_whitespace text -> Py.strip text = text).
Proof.
  repeat split; try reflexivity.
  - intros Hop. apply int_spec. now apply parse_token_as_op_push_int.
  - intros Hlit. apply int_spec in Hlit.
    rewrite parse_token_as_op_other by assumption. now rewrite Hlit.
  - intros Herr v Hlit. apply int_spec in Hlit.
    rewrite parse_token_as_op_other, Hlit in Herr by assumption. discriminate.
  - intros Hno. rewrite parse_token_as_op_other by assumption.
    destruct (Py.int text) as [v|] eqn:E; trivial.
    apply int_spec in E. now elim (Hno v).
  - rewrite parse_token_as_op_other by assumption.
    destruct (Py.int text) as [v|]; eauto.
  - apply strip_no_whitespace.
Qed.

Lemma parse_token_as_op_classification_witness : int_literal "1_000" 1000.
Proof.
  destruct parse_token_as_op_classification as (_ & _ & _ & H).
  apply (H "1_000"); try discriminate. reflexivity.
Defined.

(** C1, as stated, fails: the text [+5] is not an optional [-] followed by
    digits only, and yet it yields [(OP_PUSH_INT, 5)]. *)
Lemma parse_token_as_op_accepts_plus_sign :
  spec_integer_text "+5" = false
  /\ parse_token_as_op "+5" = Py.Ok [VOp OP_PUSH_INT; VInt 5].
Proof. split; reflexivity. Qed.

(** C8, as the code has it.  The operand of the [OP_PUSH_INT] that a token
    yields is exactly the integer that the literal denotes, whatever its
    size: it is the one value [v] with [int_literal text v], with no
    wrap-around and no range check.  So the operand fits a 64-bit signed
    integer exactly when the integer that the literal denotes lies between
    [- 2 ^ 63] and [2 ^ 63 - 1]; it is below [10 ^ n] in magnitude for [n]
    the length of the token, and so fits whenever the token has at most 18
    characters. *)
Theorem push_int_operand_bound (text : string) (v : Z) :
  parse_token_as_op text = Py.Ok [VOp OP_PUSH_INT; VInt v] ->
  int_literal text v
  /\ (forall value, int_literal text value -> value = v)
  /\ (int64 v
      <-> exists value,
            int_literal text value /\ (- 2 ^ 63 <= value <= 2 ^ 63 - 1)%Z)
  /\ (Z.abs v < 10 ^ Z.of_nat (String.length text))%Z
  /\ (String.length text <= 18 -> int64 v).
Proof.
  intros Hop. apply parse_token_as_op_push_int in Hop.
  assert (Hlit : int_literal text v) by now apply int_spec.
  assert (Huniq : forall value, int_literal text value -> value = v).
  { intros value Hvalue. apply int_spec in Hvalue. congruence. }
  destruct (int_literal_bound text v Hlit) as (n & Hn & _ & Hv).
  assert (Hpow : (10 ^ Z.of_nat n <= 10 ^ Z.of_nat (String.length text))%Z)
    by (apply Z.pow_le_mono_r; lia).
  split; [exact Hlit|]. split; [exact Huniq|]. split; [|split].
  - unfold int64. split.
    + intros H. exists v. split; [exact Hlit|lia].
    + intros (value & Hvalue & H). rewrite <- (Huniq value Hvalue). lia.
  - lia.
  - intros Hlen.
    assert (Hpow' : (10 ^ Z.of_nat (String.length text) <= 10 ^ 18)%Z)
      by (apply Z.pow_le_mono_r; lia).
    unfold int64. lia.
Qed.

(** The largest 64-bit signed integer, a token of 19 characters, is pushed
    as it is. *)
Lemma push_int_operand_bound_witness :
  int64 9223372036854775807
  /\ forall value,
       int_literal "9223372036854775807" value -> value = 9223372036854775807%Z.
Proof.
  destruct (push_int_operand_bound "9223372036854775807" 9223372036854775807
              eq_refl) as (Hlit & Huniq & Hfits & _ & _).
  split; [|exact Huniq].
  apply Hfits. exists 9223372036854775807%Z. split; [exact Hlit|].
  split; discriminate.
Defined.

(** C8, as stated, fails: the token [9223372036854775808] is accepted and
    its operand is [2 ^ 63], which no 64-bit signed integer holds. *)
Lemma push_int_operand_beyond_int64 :
  parse_token_as_op "9223372036854775808"
  = Py.Ok [VOp OP_PUSH_INT; VInt 9223372036854775808]
  /\ ~ int64 9223372036854775808.
Proof.
  split; [reflexivity|]. unfold int64. lia.
Qed.

(* ===================================================================== *)
(** * Parsing a file *)
(* ===================================================================== *)

(** The classification of a located token. *)
Definition classify (tok : token) : Py.result tuple :=
  parse_token_as_op (snd tok).

(** The only exception of [parse_token_as_op] is [Invalid token <text>]. *)
Lemma parse_token_as_op_raises (text : string) (e : Py.exn) :
  parse_token_as_op text = Py.Raise e -> e = invalid_token text.
Proof.
  unfold parse_token_as_op.
  destruct (text =? "+")%string; [discriminate|].
  destruct (text =? "-")%string; [discriminate|].
  destruct (text =? ".")%string; [discriminate|].
  destruct (Py.int text); [discriminate|].
  now intros [= <-].
Qed.

(** A position that [%d] can print: its 1-based form has at most
    [int_max_str_digits] decimal digits. *)
Definition printable_position (n : nat) : Prop :=
  (Z.of_nat n + 1 < 10 ^ Z.of_nat Py.int_max_str_digits)%Z.

Lemma str_int_position (n : nat) :
  printable_position n ->
  Py.str_int (Z.of_nat n + 1) = Py.Ok (Py.decimal (Z.of_nat n + 1)).
Proof.
  intros H. unfold Py.str_int, Py.exceeds_limit.
  assert (Hd : Py.ndigits (Z.of_nat n + 1) <= Py.int_max_str_digits).
  { apply ndigits_bound; [unfold Py.int_max_str_digits; lia|].
    unfold printable_position in H. lia. }
  apply Nat.ltb_ge in Hd. now rewrite Hd, andb_false_r.
Qed.

(** Rows and columns of a real file are printable: the sizes of Python
    lists and strings are below [2 ^ 63]. *)
Lemma printable_position_ssize (n : nat) :
  (Z.of_nat n < 2 ^ 63)%Z -> printable_position n.
Proof.
  intros H. unfold printable_position.
  assert (Hpow : (10 ^ 19 <= 10 ^ Z.of_nat Py.int_max_str_digits)%Z)
    by (apply Z.pow_le_mono_r; unfold Py.int_max_str_digits; lia).
  lia.
Qed.

(** The diagnostic line of a token. *)
Definition diagnostic (file : string) (row col : nat) (text : string) : string :=
  "Error at " ++ file ++ ":" ++ Py.decimal (Z.of_nat row + 1) ++ ":"
  ++ Py.decimal (Z.of_nat col + 1) ++ ": Invalid token " ++ text.

Lemma parse_loop_all (tokens : list token) (ops parsed : list tuple) :
  map classify tokens = map Py.Ok parsed ->
  parse_loop tokens ops = ([], Py.Ok (ops ++ parsed)%list).
Proof.
  revert ops parsed.
  induction tokens as [|[[[f row] col] text] tokens IH]; intros ops parsed H.
  - destruct parsed; [|discriminate]. simpl. now rewrite List.app_nil_r.
  - destruct parsed as [|op parsed]; [discriminate|].
    injection H as Hop Hrest. unfold classify in Hop. simpl in Hop.
    simpl. rewrite Hop, (IH _ _ Hrest), <- List.app_assoc. reflexivity.
Qed.

Lemma parse_loop_first_failure
  (before after : list token) (file : string) (row col : nat) (text : string)
  (e : Py.exn) (ops parsed : list tuple) :
  map classify before = map Py.Ok parsed ->
  parse_token_as_op text = Py.Raise e ->
  printable_position row -> printable_position col ->
  parse_loop (before ++ (file, row, col, text) :: after) ops
  = ([Print (diagnostic file row col text)], Py.Ok []).
Proof.
  intros Hbefore Hfail Hrow Hcol. revert ops parsed Hbefore.
  induction before as [|[[[f r] c] t] before IH]; intros ops parsed H.
  - simpl. rewrite Hfail.
    rewrite (str_int_position row Hrow), (str_int_position col Hcol).
    apply parse_token_as_op_raises in Hfail. subst e. reflexivity.
  - destruct parsed as [|op parsed]; [discriminate|].
    injection H as Hop Hrest. unfold classify in Hop. simpl in Hop.
    simpl. rewrite Hop. now apply IH with parsed.
Qed.

(** C2. Fail-fast parsing: when a token of the file fails classification
    and all the tokens before it classify, [parse_file] prints the one line
    [Error at <file>:<row>:<col>: Invalid token <text>] with the 1-based
    row and column and the text of that token, and returns the empty
    program, whatever tokens follow; when every token classifies, it prints
    nothing and returns the operations of all the tokens in order.  Rows
    and columns are taken to be printable, that is below [10 ^ 4300]. *)
Theorem parse_file_fail_fast
  (read_lines : string -> Py.result (list string))
  (file : string) (lines : list string) :
  read_lines file = Py.Ok lines ->
  (forall before after row col text e parsed,
      lex_lines file lines = (before ++ (file, row, col, text) :: after)%list ->
      map classify before = map Py.Ok parsed ->
      parse_token_as_op text = Py.Raise e ->
      printable_position row -> printable_position col ->
      parse_file read_lines file
      = ([Print ("Error at " ++ file ++ ":" ++ Py.decimal (Z.of_nat row + 1)
                 ++ ":" ++ Py.decimal (Z.of_nat col + 1)
                 ++ ": Invalid token " ++ text)],
         Py.Ok []))
  /\ (forall parsed,
         map classify (lex_lines file lines) = map Py.Ok parsed ->
         parse_file read_lines file = ([], Py.Ok parsed)).
Proof.
  intros Hread. unfold parse_file, lex_file. rewrite Hread. cbn [Py.bind].
  split.
  - intros before after row col text e parsed Htokens Hbefore Hfail Hrow Hcol.
    rewrite Htokens.
    now apply parse_loop_first_failure with e parsed.
  - intros parsed Hall. now rewrite (parse_loop_all _ [] parsed Hall).
Qed.

(** Two small files: one with an invalid token, one without. *)
Definition sample_invalid : string -> Py.result (list string) :=
  fun _ => Py.Ok ["1 abc +" ++ Py.nl; "9 xyz"].

Definition sample_valid : string -> Py.result (list string) :=
  fun _ => Py.Ok ["+ -" ++ Py.nl; " ."].

Lemma parse_file_fail_fast_witness :
  parse_file sample_invalid "a.sl"
  = ([Print "Error at a.sl:1:3: Invalid token abc"], Py.Ok [])
  /\ parse_file sample_valid "a.sl"
     = ([], Py.Ok [[VOp OP_PLUS]; [VOp OP_MINUS]; [VOp OP_DUMP]]).
Proof.
  split.
  - apply (proj1 (parse_file_fail_fast sample_invalid "a.sl" _ eq_refl)
             [("a.sl", 0, 0, "1")]
             [("a.sl", 0, 6, "+"); ("a.sl", 1, 0, "9"); ("a.sl", 1, 2, "xyz")]
             0 2 "abc" (invalid_token "abc") [[VOp OP_PUSH_INT; VInt 1]]);
      try reflexivity; vm_compute; reflexivity.
  - apply (proj2 (parse_file_fail_fast sample_valid "a.sl" _ eq_refl)).
    reflexivity.
Defined.

(* ===================================================================== *)
(** * Framing of the assembly text *)
(* ===================================================================== *)

(** C3. Assembly framing: for every program of the data model, the text
    that [compile_ops] returns is the fixed prologue with the subroutine
    [dump], then the entry point [_start], then the templates of the
    operations in program order, then the fixed epilogue that makes the
    exit system call with exit code 0; prologue and epilogue are the same
    for every program. *)
Theorem compile_ops_framing (prog : Program) :
  Forall operand_int64 prog ->
  compile_ops (map encode prog)
  = Py.Ok (prologue ++ entry_point ++ body prog ++ epilogue).
Proof.
  intros Hall. apply compile_ops_program.
  eapply Forall_impl; [|exact Hall]. apply operand_int64_printable.
Qed.

Lemma compile_ops_framing_witness :
  compile_ops [[VOp OP_PUSH_INT; VInt 2]; [VOp OP_PUSH_INT; VInt 3];
               [VOp OP_PLUS]; [VOp OP_DUMP]]
  = Py.Ok (prologue ++ entry_point
           ++ body [PushInt 2; PushInt 3; Plus; Dump] ++ epilogue).
Proof.
  apply (compile_ops_framing [PushInt 2; PushInt 3; Plus; Dump]).
  repeat constructor; unfold int64; simpl; lia.
Defined.

(** C10. The empty program: [compile_ops] does not fail on the empty
    list; it returns the prologue, the entry point and the epilogue with
    nothing between them, and this text is not empty. *)
Theorem compile_ops_empty :
  compile_ops [] = Py.Ok (prologue ++ entry_point ++ epilogue)
  /\ prologue ++ entry_point ++ epilogue <> ""
  /\ body [] = "".
Proof.
  split; [|split; [discriminate|reflexivity]].
  exact (compile_ops_program [] (Forall_nil _)).
Qed.

(* ===================================================================== *)
(** * Programs that the parser produces *)
(* ===================================================================== *)

(** A tuple that stands for an operation whose operand can be printed. *)
Definition well_formed (t : tuple) : Prop :=
  exists o, t = encode o /\ operand_printable o.

Lemma str_int_within_limit (v : Z) :
  Py.ndigits v <= Py.int_max_str_digits ->
  Py.str_int v = Py.Ok (Py.decimal v).
Proof.
  intros H. unfold Py.str_int, Py.exceeds_limit.
  apply Nat.ltb_ge in H. now rewrite H, andb_false_r.
Qed.

(** The operand of a literal can be printed again. *)
Lemma int_literal_printable (text : string) (v : Z) :
  int_literal text v -> Py.str_int v = Py.Ok (Py.decimal v).
Proof.
  intros H. destruct (int_literal_bound text v H) as (n & Hn & Hmax & Hv).
  apply str_int_within_limit.
  pose proof (ndigits_bound v n ltac:(lia) Hv). lia.
Qed.

Lemma parse_token_as_op_well_formed (text : string) (t : tuple) :
  parse_token_as_op text = Py.Ok t -> well_formed t.
Proof.
  unfold parse_token_as_op.
  destruct (text =? "+")%string;
    [intros [= <-]; exists Plus; now split|].
  destruct (text =? "-")%string;
    [intros [= <-]; exists Minus; now split|].
  destruct (text =? ".")%string;
    [intros [= <-]; exists Dump; now split|].
  destruct (Py.int text) as [v|] eqn:E; [|discriminate].
  intros [= <-]. exists (PushInt v). split; trivial.
  simpl. apply int_literal_printable with text. now apply int_spec.
Qed.

Lemma parse_loop_well_formed (tokens : list token) (acc ops : list tuple)
  (printed : list event) :
  parse_loop tokens acc = (printed, Py.Ok ops) ->
  Forall well_formed acc -> Forall well_formed ops.
Proof.
  revert acc. induction tokens as [|[[[f row] col] text] tokens IH];
    intros acc H Hacc; simpl in H.
  - now injection H as _ <-.
  - destruct (parse_token_as_op text) as [t|e] eqn:E.
    + apply (IH _ H). apply Forall_app. split; trivial.
      constructor; [|constructor]. now apply parse_token_as_op_well_formed with text.
    + destruct (Py.bind _ _) in H; [|discriminate].
      injection H as _ <-. constructor.
Qed.

Lemma well_formed_program (ops : list tuple) :
  Forall well_formed ops ->
  exists prog, ops = map encode prog /\ Forall operand_printable prog.
Proof.
  induction 1 as [|t ops (o & -> & Ho) _ (prog & -> & Hprog)].
  - exists []. split; [reflexivity|constructor].
  - exists (o :: prog). split; [reflexivity|now constructor].
Qed.

(** What [parse_file] returns is a program. *)
Lemma parse_file_program read_lines file printed ops :
  parse_file read_lines file = (printed, Py.Ok ops) ->
  exists prog, ops = map encode prog /\ Forall operand_printable prog.
Proof.
  unfold parse_file. destruct (lex_file read_lines file) as [tokens|e];
    [|discriminate].
  intros H. apply well_formed_program.
  apply (parse_loop_well_formed _ _ _ _ H). constructor.
Qed.

(** The first tuple whose head is no member of [Op] stops the loop. *)
Lemma compile_loop_invalid_op
  (before : Program) (head : value) (args : tuple) (rest : list tuple)
  (name out : string) :
  Forall operand_printable before ->
  (forall o, head <> VOp o) ->
  format_s head = Py.Ok name ->
  compile_loop (map encode before ++ (head :: args) :: rest) out
  = Py.Raise (Py.mk_exn Py.Exception ("Invalid op " ++ name)).
Proof.
  intros Hall Hhead Hname. revert out.
  induction Hall as [|o before Ho _ IH]; intros out.
  - destruct head as [o|n|]; [now elim (Hhead o)| |];
      cbn [map List.app compile_loop]; now rewrite Hname.
  - destruct o as [v| | |]; cbn [map List.app encode compile_loop format_d];
      cbn [operand_printable] in Ho; rewrite ?Ho; cbn [Py.bind]; apply IH.
Qed.

(** C6. The defensive failure: when the first tuple that is not a
    well-formed operation has a head outside [Op], [compile_ops] raises
    [Invalid op <head>]; and whatever [parse_file] returns consists of
    tuples that stand for operations of the closed set, on which
    [compile_ops] returns a text and so never reaches that failure. *)
Theorem compile_ops_invalid_op_unreachable :
  (forall (before : Program) head args rest name,
      Forall operand_printable before ->
      (forall o, head <> VOp o) ->
      format_s head = Py.Ok name ->
      compile_ops (map encode before ++ (head :: args) :: rest)
      = Py.Raise (Py.mk_exn Py.Exception ("Invalid op " ++ name)))
  /\ (forall read_lines file printed ops,
         parse_file read_lines file = (printed, Py.Ok ops) ->
         (forall t, In t ops -> exists o, t = encode o)
         /\ exists text, compile_ops ops = Py.Ok text).
Proof.
  split.
  - intros before head args rest name Hall Hhead Hname.
    rewrite compile_ops_frame.
    now rewrite (compile_loop_invalid_op before head args rest name).
  - intros read_lines file printed ops H.
    destruct (parse_file_program _ _ _ _ H) as (prog & -> & Hprog).
    split.
    + intros t Ht. apply in_map_iff in Ht. destruct Ht as (o & <- & _). eauto.
    + rewrite compile_ops_program by trivial. eauto.
Qed.

Lemma compile_ops_invalid_op_unreachable_witness :
  compile_ops [[VOp OP_PUSH_INT; VInt 1]; [VInt 7; VNone]; [VOp OP_DUMP]]
  = Py.Raise (Py.mk_exn Py.Exception "Invalid op 7")
  /\ exists text,
       compile_ops [[VOp OP_PLUS]; [VOp OP_MINUS]; [VOp OP_DUMP]] = Py.Ok text.
Proof.
  split.
  - apply (proj1 compile_ops_invalid_op_unreachable
             [PushInt 1] (VInt 7) [VNone] [[VOp OP_DUMP]] "7").
    + repeat constructor.
    + discriminate.
    + reflexivity.
  - apply (proj2 compile_ops_invalid_op_unreachable sample_valid "a.sl" []).
    reflexivity.
Defined.

(* ===================================================================== *)
(** * The pipeline *)
(* ===================================================================== *)

(** [parse_file] followed by [compile_ops]. *)
Definition assemble (read_lines : string -> Py.result (list string))
  (file : string) : Py.result string :=
  ops <- snd (parse_file read_lines file) ;; compile_ops ops.

(** A source of one line. *)
Definition sample_one_line : string -> Py.result (list string) :=
  fun _ => Py.Ok ["10 3 - ." ++ Py.nl].

(* ===================================================================== *)
(** * The driver *)
(* ===================================================================== *)

(** What the driver does downstream of parsing: a call of the code
    generator, a file written, a child process run. *)
Definition downstream (ev : event) : bool :=
  match ev with
  | Print _ => false
  | Compile _ | WriteFile _ _ | Spawn _ => true
  end.

Lemma parse_loop_prints (tokens : list token) (acc : list tuple) :
  Forall (fun ev => downstream ev = false) (fst (parse_loop tokens acc)).
Proof.
  revert acc. induction tokens as [|[[[f row] col] text] tokens IH];
    intros acc; simpl; [constructor|].
  destruct (parse_token_as_op text); [apply IH|].
  destruct (Py.bind _ _); simpl; repeat constructor.
Qed.

Lemma parse_file_prints read_lines file :
  Forall (fun ev => downstream ev = false) (fst (parse_file read_lines file)).
Proof.
  unfold parse_file. destruct (lex_file read_lines file); [|constructor].
  apply parse_loop_prints.
Qed.

(** A non-empty result of the loop is the whole program. *)
Lemma parse_loop_complete (tokens : list token) (acc ops : list tuple)
  (printed : list event) :
  parse_loop tokens acc = (printed, Py.Ok ops) -> ops <> [] ->
  exists parsed,
    map classify tokens = map Py.Ok parsed /\ ops = (acc ++ parsed)%list.
Proof.
  revert acc. induction tokens as [|[[[f row] col] text] tokens IH];
    intros acc H Hne; simpl in H.
  - injection H as _ <-. exists []. split; [reflexivity|].
    now rewrite List.app_nil_r.
  - destruct (parse_token_as_op text) as [t|e] eqn:E.
    + destruct (IH _ H Hne) as (parsed & Hparsed & ->).
      exists (t :: parsed). split.
      * cbn [map]. unfold classify at 1. cbn [snd]. now rewrite E, Hparsed.
      * now rewrite <- List.app_assoc.
    + destruct (Py.bind _ _) in H; [|discriminate].
      injection H as _ <-. now elim Hne.
Qed.

Lemma lex_lines_whitespace (file : string) (lines : list string) :
  Forall (fun line => forall i, i < String.length line -> space_at line i = true)
         lines ->
  lex_lines file lines = [].
Proof.
  unfold lex_lines. generalize 0 as start.
  induction lines as [|line lines IH]; intros start Hall; [reflexivity|].
  inversion Hall as [|? ? Hline Hrest]; subst.
  cbn [enumerate flat_map].
  rewrite (lex_line_whitespace line Hline).
  cbn [map List.app]. now apply IH.
Qed.

Section Driver.

Variable read_lines : string -> Py.result (list string).
Variable write_file : string -> string -> option Py.exn.
Variable spawn : list string -> option Py.exn.

(** The only call of the code generator in the [try] block is the one on
    the operations it is given. *)
Lemma compile_and_run_compiles (ops ops' : list tuple) :
  In (Compile ops') (fst (compile_and_run write_file spawn ops)) -> ops' = ops.
Proof.
  unfold compile_and_run, attempt.
  destruct (compile_ops ops) as [out|e]; cbn [fst].
  - destruct (write_file "out.asm" out);
      destruct (spawn ["nasm"; "-felf64"; "out.asm"]);
      destruct (spawn ["ld"; "-o"; "out"; "out.o"]);
      destruct (spawn ["./out"]); cbn [fst In];
      intuition (try discriminate; congruence).
  - cbn [In]. intuition (try discriminate; congruence).
Qed.

Lemma prints_no_compile (events : list event) (ops : list tuple) :
  Forall (fun ev => downstream ev = false) events -> ~ In (Compile ops) events.
Proof.
  intros Hall Hin. rewrite Forall_forall in Hall.
  specialize (Hall _ Hin). discriminate.
Qed.

(** A non-empty result of [parse_file] is the complete program of the
    file. *)
Lemma parse_file_complete (file : string) (printed : list event)
  (ops : list tuple) :
  parse_file read_lines file = (printed, Py.Ok ops) -> ops <> [] ->
  exists lines,
    read_lines file = Py.Ok lines
    /\ map classify (lex_lines file lines) = map Py.Ok ops.
Proof.
  unfold parse_file, lex_file.
  destruct (read_lines file) as [lines|e]; cbn [Py.bind]; [|discriminate].
  intros H Hne. exists lines. split; trivial.
  destruct (parse_loop_complete _ _ _ _ H Hne) as (parsed & Hparsed & ->).
  exact Hparsed.
Qed.

(** The events of a run in which the code generator is called on [ops]. *)
Lemma main_compiles (argv : list string) (ops : list tuple) :
  In (Compile ops) (fst (main read_lines write_file spawn argv)) ->
  ops <> []
  /\ exists printed,
       parse_file read_lines (nth 1 argv "") = (printed, Py.Ok ops).
Proof.
  unfold main.
  destruct (List.length argv <? 2)%nat;
    [cbn [fst In]; intuition discriminate|].
  pose proof (parse_file_prints read_lines (nth 1 argv "")) as Hprints.
  destruct (parse_file read_lines (nth 1 argv "")) as [printed [ops0|e]];
    cbn [fst] in Hprints; [|intros H; now apply prints_no_compile in H].
  destruct (repr_ops ops0) as [text|e];
    [|intros H; now apply prints_no_compile in H].
  destruct (List.length ops0 =? 0)%nat eqn:Hlen.
  - cbn [fst]. intros H. apply in_app_or in H.
    destruct H as [H|[H|[]]]; [now apply prints_no_compile in H|discriminate].
  - assert (Hthere : forall tail,
               In (Compile ops)
                  (printed ++ Print text
                   :: (fst (compile_and_run write_file spawn ops0) ++ tail))%list ->
               ~ In (Compile ops) tail -> ops = ops0).
    { intros tail H Htail. apply in_app_or in H.
      destruct H as [H|[H|H]];
        [now apply prints_no_compile in H|discriminate|].
      apply in_app_or in H. destruct H as [H|H]; [|contradiction].
      now apply compile_and_run_compiles in H. }
    destruct (compile_and_run write_file spawn ops0) as [events outcome]
      eqn:Hrun; cbn [fst] in Hthere.
    assert (Hops : In (Compile ops)
                      (fst (match outcome with
                            | Py.Ok _ =>
                                ((printed ++ Print text :: events)%list, None)
                            | Py.Raise e =>
                                ((printed ++ Print text
                                  :: events ++ [Print (Py.exn_msg e)])%list,
                                 @None Py.exn)
                            end)) -> ops = ops0).
    { destruct outcome as [u|e]; cbn [fst]; intros H.
      - apply (Hthere []); [now rewrite List.app_nil_r|intros []].
      - apply (Hthere [Print (Py.exn_msg e)]); trivial.
        intros [H'|[]]. discriminate. }
    intros H. apply Hops in H. subst ops0. split; [|eauto].
    intros ->. discriminate.
Qed.

(** C7. Degenerate runs: when [parse_file] returns the empty list, [main]
    prints that list and stops, so that the run consists of printed lines
    only: no call of the code generator, no file written, no child process
    run.  A file of whitespace only parses to the empty list (as does a file
    with an invalid token), a run that [parse_file] ends with an exception
    has no downstream event either, and the code generator is only ever
    called on the complete, non-empty program of the file. *)
Theorem main_degenerate_run (argv : list string) :
  2 <= List.length argv ->
  (forall printed,
      parse_file read_lines (nth 1 argv "") = (printed, Py.Ok []) ->
      main read_lines write_file spawn argv
      = ((printed ++ [Print "[]"])%list, None)
      /\ Forall (fun ev => downstream ev = false)
                (fst (main read_lines write_file spawn argv)))
  /\ (forall printed e,
         parse_file read_lines (nth 1 argv "") = (printed, Py.Raise e) ->
         main read_lines write_file spawn argv = (printed, Some e)
         /\ Forall (fun ev => downstream ev = false) printed)
  /\ (forall lines,
         read_lines (nth 1 argv "") = Py.Ok lines ->
         Forall (fun line =>
                   forall i, i < String.length line -> space_at line i = true)
                lines ->
         parse_file read_lines (nth 1 argv "") = ([], Py.Ok []))
  /\ (forall ops,
         In (Compile ops) (fst (main read_lines write_file spawn argv)) ->
         ops <> []
         /\ exists lines,
              read_lines (nth 1 argv "") = Py.Ok lines
              /\ map classify (lex_lines (nth 1 argv "") lines) = map Py.Ok ops).
Proof.
  intros Hargv.
  assert (Hlen : (List.length argv <? 2)%nat = false) by now apply Nat.ltb_ge.
  pose proof (parse_file_prints read_lines (nth 1 argv "")) as Hprints.
  split; [|split; [|split]].
  - intros printed H. split.
    + unfold main. now rewrite Hlen, H.
    + unfold main. rewrite Hlen, H. rewrite H in Hprints. cbn [fst] in *.
      apply Forall_app. split; trivial. repeat constructor.
  - intros printed e H. split.
    + unfold main. now rewrite Hlen, H.
    + rewrite H in Hprints. exact Hprints.
  - intros lines H Hblank.
    unfold parse_file, lex_file. rewrite H. cbn [Py.bind].
    now rewrite lex_lines_whitespace.
  - intros ops H. apply main_compiles in H. destruct H as (Hne & printed & H).
    split; trivial. now apply parse_file_complete with printed.
Qed.

End Driver.

(** A file of blank lines. *)
Definition sample_blank : string -> Py.result (list string) :=
  fun _ => Py.Ok ["   " ++ Py.nl; Py.nl].

Lemma main_degenerate_run_witness :
  main sample_blank (fun _ _ => None) (fun _ => None) ["main.py"; "a.sl"]
  = ([Print "[]"], None).
Proof.
  apply (proj1 (main_degenerate_run sample_blank (fun _ _ => None)
                  (fun _ => None) ["main.py"; "a.sl"] (le_n 2)) []).
  reflexivity.
Defined.

(* ===================================================================== *)
(** * The meaning of the emitted instructions *)
(* ===================================================================== *)

(** The templates are text for the assembler.  To say what they compute,
    this module reads the lines that the templates consist of back into
    instructions and gives these the meaning that they have on x86-64:
    64-bit registers, a stack of 64-bit words, arithmetic modulo [2 ^ 64].
    The subroutine [dump] is taken at its interface: it is handed the word
    in [rdi] and writes it out; the words written are collected in
    [output]. *)
Module X86.

Inductive reg : Type := RAX | RBX | RDI.

Inductive instr : Type :=
| PushImm (n : Z)
| PushReg (r : reg)
| PopReg (r : reg)
| AddRR (dst src : reg)
| SubRR (dst src : reg)
| MovImm (dst : reg) (n : Z)
| CallDump
| Syscall.

(** ** Reading lines *)

Fixpoint skip_spaces (s : string) : string :=
  match s with
  | String " " s' => skip_spaces s'
  | _ => s
  end.

Fixpoint strip_prefix (p s : string) : option string :=
  match p, s with
  | EmptyString, _ => Some s
  | String a p', String b s' =>
      if (a =? b)%char then strip_prefix p' s' else None
  | String _ _, EmptyString => None
  end.

(** The two operands of [op a, b]. *)
Fixpoint split_operands (s : string) : option (string * string) :=
  match s with
  | String "," (String " " r) => Some ("", r)
  | String c s' =>
      match split_operands s' with
      | Some (a, b) => Some (String c a, b)
      | None => None
      end
  | EmptyString => None
  end.

Definition reg_of (s : string) : option reg :=
  if (s =? "rax")%string then Some RAX
  else if (s =? "rbx")%string then Some RBX
  else if (s =? "rdi")%string then Some RDI
  else None.

Definition imm_of (s : string) : option Z :=
  option_map Z.of_int (NilZero.int_of_string s).

(** A line is a comment or blank ([Some None]), an instruction, or not
    understood ([None]). *)
Definition decode_line (line : string) : option (option instr) :=
  let l := skip_spaces line in
  match l with
  | EmptyString => Some None
  | String ";" _ => Some None
  | _ =>
  if (l =? "syscall")%string then Some (Some Syscall)
  else if (l =? "call dump")%string then Some (Some CallDump)
  else
  match strip_prefix "pop " l with
  | Some r => option_map (fun r => Some (PopReg r)) (reg_of r)
  | None =>
  match strip_prefix "push " l with
  | Some x =>
      match reg_of x with
      | Some r => Some (Some (PushReg r))
      | None => option_map (fun n => Some (PushImm n)) (imm_of x)
      end
  | None =>
  match strip_prefix "add " l, strip_prefix "sub " l, strip_prefix "mov " l with
  | Some ops, _, _ =>
      match split_operands ops with
      | Some (a, b) =>
          match reg_of a, reg_of b with
          | Some ra, Some rb => Some (Some (AddRR ra rb))
          | _, _ => None
          end
      | None => None
      end
  | None, Some ops, _ =>
      match split_operands ops with
      | Some (a, b) =>
          match reg_of a, reg_of b with
          | Some ra, Some rb => Some (Some (SubRR ra rb))
          | _, _ => None
          end
      | None => None
      end
  | None, None, Some ops =>
      match split_operands ops with
      | Some (a, b) =>
          match reg_of a, imm_of b with
          | Some ra, Some n => Some (Some (MovImm ra n))
          | _, _ => None
          end
      | None => None
      end
  | None, None, None => None
  end end end end.

(** The lines of a text; each ends with a newline. *)
Fixpoint lines_of (s : string) : list string :=
  match s with
  | EmptyString => []
  | String c s' =>
      if (c =? "010")%char then EmptyString :: lines_of s'
      else
        match lines_of s' with
        | l :: ls => String c l :: ls
        | [] => [String c EmptyString]
        end
  end.

Fixpoint decode_lines (ls : list string) : option (list instr) :=
  match ls with
  | [] => Some []
  | l :: ls' =>
      match decode_line l, decode_lines ls' with
      | Some (Some i), Some rest => Some (i :: rest)
      | Some None, Some rest => Some rest
      | _, _ => None
      end
  end.

Definition decode (text : string) : option (list instr) :=
  decode_lines (lines_of text).

(** The lines after the label [_start:], where execution begins. *)
Fixpoint after_start (ls : list string) : list string :=
  match ls with
  | [] => []
  | l :: ls' => if (l =? "_start:")%string then ls' else after_start ls'
  end.

Definition decode_program (text : string) : option (list instr) :=
  decode_lines (after_start (lines_of text)).

(** ** Running instructions *)

Definition wrap (z : Z) : Z := (z mod 2 ^ 64)%Z.

(** The state: a register is [None] while its content is not known; the
    stack holds the words that the program has pushed, the top first;
    [exit_code] is set once the process has exited. *)
Record machine : Type := mk_machine {
  rax : option Z;
  rbx : option Z;
  rdi : option Z;
  stack : list Z;
  output : list Z;
  exit_code : option Z
}.

Definition start : machine := mk_machine None None None [] [] None.

Definition get_reg (r : reg) (m : machine) : option Z :=
  match r with RAX => rax m | RBX => rbx m | RDI => rdi m end.

Definition set_reg (r : reg) (v : option Z) (m : machine) : machine :=
  match r with
  | RAX => mk_machine v (rbx m) (rdi m) (stack m) (output m) (exit_code m)
  | RBX => mk_machine (rax m) v (rdi m) (stack m) (output m) (exit_code m)
  | RDI => mk_machine (rax m) (rbx m) v (stack m) (output m) (exit_code m)
  end.

Definition set_stack (s : list Z) (m : machine) : machine :=
  mk_machine (rax m) (rbx m) (rdi m) s (output m) (exit_code m).

(** One instruction; [None] when the model does not say what happens: a
    register read before it is written, a pop from a stack that holds no
    pushed word, an immediate that does not fit 32 bits, a system call
    other than [exit]. *)
Definition step (i : instr) (m : machine) : option machine :=
  match i with
  | PushImm n =>
      if ((- 2 ^ 31 <=? n) && (n <? 2 ^ 31))%Z
      then Some (set_stack (wrap n :: stack m) m)
      else None
  | PushReg r =>
      match get_reg r m with
      | Some v => Some (set_stack (v :: stack m) m)
      | None => None
      end
  | PopReg r =>
      match stack m with
      | v :: s => Some (set_reg r (Some v) (set_stack s m))
      | [] => None
      end
  | AddRR dst src =>
      match get_reg dst m, get_reg src m with
      | Some a, Some b => Some (set_reg dst (Some (wrap (a + b))) m)
      | _, _ => None
      end
  | SubRR dst src =>
      match get_reg dst m, get_reg src m with
      | Some a, Some b => Some (set_reg dst (Some (wrap (a - b))) m)
      | _, _ => None
      end
  | MovImm dst n => Some (set_reg dst (Some (wrap n)) m)
  | CallDump =>
      match rdi m with
      | Some v =>
          Some (mk_machine None (rbx m) None (stack m)
                           (output m ++ [v]) (exit_code m))
      | None => None
      end
  | Syscall =>
      match rax m, rdi m with
      | Some 60%Z, Some code =>
          Some (mk_machine (rax m) (rbx m) (rdi m) (stack m) (output m)
                           (Some code))
      | _, _ => None
      end
  end.

Fixpoint run (code : list instr) (m : machine) : option machine :=
  match code with
  | [] => Some m
  | i :: code' =>
      match exit_code m with
      | Some _ => Some m
      | None =>
          match step i m with
          | Some m' => run code' m'
          | None => None
          end
      end
  end.

End X86.

(* ===================================================================== *)
(** * Operand order of the subtraction *)
(* ===================================================================== *)

Lemma body_app (p1 p2 : Program) : body (p1 ++ p2)%list = body p1 ++ body p2.
Proof.
  induction p1 as [|o p1 IH]; cbn [List.app body]; [reflexivity|].
  now rewrite IH, append_assoc.
Qed.

(** The instructions of the template of [Minus]. *)
Definition minus_code : list X86.instr :=
  [X86.PopReg X86.RAX; X86.PopReg X86.RBX;
   X86.SubRR X86.RBX X86.RAX; X86.PushReg X86.RBX].

Lemma run_minus_code (m : X86.machine) (a b : Z) (rest : list Z) :
  X86.exit_code m = None ->
  X86.stack m = b :: a :: rest ->
  X86.run minus_code m
  = Some (X86.mk_machine (Some b) (Some (X86.wrap (a - b))) (X86.rdi m)
            (X86.wrap (a - b) :: rest) (X86.output m) None).
Proof.
  intros Hexit Hstack. destruct m as [ax bx di st out ex].
  cbn in Hexit, Hstack. subst ex st. reflexivity.
Qed.

(** C5. Operand order of [Minus]: wherever a program holds [Minus],
    [compile_ops] emits at that place the fixed template; the template
    reads as [pop rax; pop rbx; sub rbx, rax; push rbx]; run on a stack
    whose top is [b], pushed last, above [a], pushed before it, these
    instructions replace both by [a - b] (modulo [2 ^ 64], which is
    [a - b] itself when [b <= a]) and write nothing; and the code of the
    source [10 3 - .] hands 7 to [dump] and exits with code 0. *)
Theorem minus_operand_order :
  (forall before after : Program,
      Forall operand_int64 (before ++ Minus :: after)%list ->
      compile_ops (map encode (before ++ Minus :: after)%list)
      = Py.Ok (prologue ++ entry_point ++ body before ++ minus_template
               ++ body after ++ epilogue))
  /\ X86.decode minus_template = Some minus_code
  /\ (forall m a b rest,
         X86.exit_code m = None ->
         X86.stack m = b :: a :: rest ->
         exists m',
           X86.run minus_code m = Some m'
           /\ X86.stack m' = X86.wrap (a - b) :: rest
           /\ X86.output m' = X86.output m
           /\ X86.exit_code m' = None)
  /\ (forall a b, (0 <= b <= a)%Z -> (a < 2 ^ 64)%Z -> X86.wrap (a - b) = (a - b)%Z)
  /\ (exists text code m,
         assemble sample_one_line "a.sl" = Py.Ok text
         /\ X86.decode_program text = Some code
         /\ X86.run code X86.start = Some m
         /\ X86.output m = [7%Z]
         /\ X86.exit_code m = Some 0%Z).
Proof.
  split; [|split; [|split; [|split]]].
  - intros before after Hall.
    rewrite compile_ops_program.
    + rewrite body_app. cbn [body template]. now rewrite !append_assoc.
    + eapply Forall_impl; [|exact Hall]. apply operand_int64_printable.
  - reflexivity.
  - intros m a b rest Hexit Hstack.
    rewrite (run_minus_code m a b rest Hexit Hstack). eauto.
  - intros a b Hab Ha. unfold X86.wrap. apply Z.mod_small. lia.
  - assert (Htext : assemble sample_one_line "a.sl"
                    = Py.Ok (prologue ++ entry_point
                             ++ body [PushInt 10; PushInt 3; Minus; Dump]
                             ++ epilogue)) by reflexivity.
    eexists _, _, _. split; [exact Htext|].
    split; [vm_compute; reflexivity|].
    split; [vm_compute; reflexivity|].
    split; reflexivity.
Qed.

Lemma minus_operand_order_witness :
  compile_ops [[VOp OP_PUSH_INT; VInt 10]; [VOp OP_PUSH_INT; VInt 3];
               [VOp OP_MINUS]; [VOp OP_DUMP]]
  = Py.Ok (prologue ++ entry_point ++ body [PushInt 10; PushInt 3]
           ++ minus_template ++ body [Dump] ++ epilogue)
  /\ exists m',
       X86.run minus_code
         (X86.mk_machine None None None [3; 10]%Z [] None) = Some m'
       /\ X86.stack m' = [X86.wrap (10 - 3)]
       /\ X86.output m' = []
       /\ X86.exit_code m' = None.
Proof.
  split.
  - apply (proj1 minus_operand_order [PushInt 10; PushInt 3] [Dump]).
    repeat constructor; unfold int64; simpl; lia.
  - apply (proj1 (proj2 (proj2 minus_operand_order))
             (X86.mk_machine None None None [3; 10]%Z [] None) 10%Z 3%Z []);
      reflexivity.
Defined.

(* ===================================================================== *)
(** * Further properties of the scanner *)
(* ===================================================================== *)

(** X1. [find_col] returns the first index at or after [start] whose
    character satisfies the predicate, or the length of the line when there
    is none: it never moves backwards, every index it passes over is inside
    the line and fails the predicate, an index inside the line at which it
    stops satisfies the predicate, it stays within the line when it starts
    within it, and a start beyond the end is returned unchanged. *)
Theorem find_col_first_match (line : string) (start : nat) (p : ascii -> bool) :
  start <= find_col line start p
  /\ (forall i, start <= i < find_col line start p ->
        exists c, get i line = Some c /\ p c = false)
  /\ (find_col line start p < String.length line ->
        exists c, get (find_col line start p) line = Some c /\ p c = true)
  /\ (start <= String.length line ->
        find_col line start p <= String.length line)
  /\ (String.length line <= start -> find_col line start p = start).
Proof.
  split; [apply find_col_ge|].
  split; [intros i; apply find_col_skipped|].
  split; [apply find_col_stop|].
  split; [apply find_col_le|apply find_col_outside].
Qed.

Lemma find_col_first_match_witness :
  find_col "ab  cd" 2 notspace <= String.length "ab  cd"
  /\ find_col "ab  cd" 9 notspace = 9.
Proof.
  split.
  - apply (proj1 (proj2 (proj2 (proj2 (find_col_first_match "ab  cd" 2 notspace))))).
    simpl. lia.
  - apply (proj2 (proj2 (proj2 (proj2 (find_col_first_match "ab  cd" 9 notspace))))).
    simpl. lia.
Defined.

Lemma enumerate_In {A : Type} (l : list A) (start row : nat) (x : A) :
  In (row, x) (enumerate start l)
  <-> start <= row /\ nth_error l (row - start) = Some x.
Proof.
  revert start. induction l as [|y l IH]; intros start; cbn [enumerate In].
  - split; [intros []|]. intros [_ H]. now destruct (row - start).
  - rewrite IH. split.
    + intros [[= <- <-]|[Hle Hnth]].
      * split; [lia|]. now rewrite Nat.sub_diag.
      * split; [lia|]. replace (row - start) with (S (row - S start)) by lia.
        exact Hnth.
    + intros [Hle Hnth]. destruct (Nat.eq_dec row start) as [->|Hne].
      * rewrite Nat.sub_diag in Hnth. injection Hnth as ->. now left.
      * right. split; [lia|].
        replace (row - start) with (S (row - S start)) in Hnth by lia.
        exact Hnth.
Qed.

(** The tokens of a file, line by line. *)
Lemma lex_lines_In (file : string) (lines : list string) (tok : token) :
  In tok (lex_lines file lines)
  <-> exists row line col text,
        tok = (file, row, col, text)
        /\ nth_error lines row = Some line
        /\ In (col, text) (lex_line line).
Proof.
  unfold lex_lines. rewrite in_flat_map. split.
  - intros ([row line] & Hrow & Htok). apply enumerate_In in Hrow.
    destruct Hrow as [_ Hnth]. rewrite Nat.sub_0_r in Hnth.
    apply in_map_iff in Htok. destruct Htok as ([col text] & <- & Hin).
    now exists row, line, col, text.
  - intros (row & line & col & text & -> & Hnth & Hin).
    exists (row, line). split.
    + apply enumerate_In. rewrite Nat.sub_0_r. split; [lia|trivial].
    + apply in_map_iff. now exists (col, text).
Qed.

(** X2. The tokens of a file: [(f, row, col, text)] is among the tokens of
    [lex_file] exactly when [f] is the file's own name and [text] is a
    maximal run of non-whitespace characters, starting at column [col], of
    the line with the 0-based number [row]. *)
Theorem lex_lines_tokens (file : string) (lines : list string)
  (f : string) (row col : nat) (text : string) :
  In (f, row, col, text) (lex_lines file lines)
  <-> f = file
      /\ exists line, nth_error lines row = Some line
                      /\ maximal_run line col text.
Proof.
  rewrite lex_lines_In. split.
  - intros (row' & line & col' & text' & [= -> -> -> ->] & Hnth & Hin).
    split; trivial. exists line. split; trivial. now apply lex_line_runs.
  - intros (-> & line & Hnth & Hrun).
    exists row, line, col, text. repeat split; trivial.
    now apply lex_line_runs.
Qed.

Lemma lex_lines_tokens_witness :
  exists line, nth_error ["1 abc +" ++ Py.nl; "9 xyz"] 1 = Some line
               /\ maximal_run line 2 "xyz".
Proof.
  apply (proj1 (lex_lines_tokens "a.sl" ["1 abc +" ++ Py.nl; "9 xyz"]
                  "a.sl" 1 2 "xyz")).
  replace (lex_lines "a.sl" ["1 abc +" ++ Py.nl; "9 xyz"])
    with [("a.sl", 0, 0, "1"); ("a.sl", 0, 2, "abc"); ("a.sl", 0, 6, "+");
          ("a.sl", 1, 0, "9"); ("a.sl", 1, 2, "xyz")] by reflexivity.
  do 4 right. now left.
Defined.

(** Reading order: an earlier row, or the same row and an earlier
    column. *)
Definition token_before (t1 t2 : token) : Prop :=
  match t1, t2 with
  | (_, row1, col1, _), (_, row2, col2, _) =>
      row1 < row2 \/ (row1 = row2 /\ col1 < col2)
  end.

Lemma StronglySorted_app {A : Type} (R : A -> A -> Prop) (l1 l2 : list A) :
  StronglySorted R l1 -> StronglySorted R l2 ->
  (forall x y, In x l1 -> In y l2 -> R x y) ->
  StronglySorted R (l1 ++ l2)%list.
Proof.
  intros H1 H2 Hcross. induction H1 as [|x l1 Hs IH Hall]; [exact H2|].
  cbn [List.app]. constructor.
  - apply IH. intros a b Ha Hb. apply Hcross; [now right|trivial].
  - apply Forall_app. split; trivial.
    apply Forall_forall. intros y Hy. apply Hcross; [now left|trivial].
Qed.

Lemma line_tokens_sorted (file : string) (row : nat) (l : list (nat * string)) :
  StronglySorted lt (map fst l) ->
  StronglySorted token_before
    (map (fun '(col, text) => (file, row, col, text)) l).
Proof.
  induction l as [|[col text] l IH]; cbn [map fst]; intros H; [constructor|].
  inversion H as [|? ? Hs Hall]; subst. constructor; [now apply IH|].
  apply Forall_map. rewrite Forall_map in Hall.
  eapply Forall_impl; [|exact Hall]. intros [col' text'] Hlt.
  cbn [token_before fst] in *. right. split; [reflexivity|exact Hlt].
Qed.

Lemma enumerated_tokens_sorted (file : string) (lines : list string) (start : nat) :
  let tokens :=
    flat_map (fun '(row, line) =>
                map (fun '(col, text) => (file, row, col, text)) (lex_line line))
             (enumerate start lines) in
  StronglySorted token_before tokens
  /\ Forall (fun tok : token => start <= snd (fst (fst tok))) tokens.
Proof.
  revert start. induction lines as [|line lines IH]; intros start;
    cbn [enumerate flat_map]; [split; constructor|].
  destruct (IH (S start)) as [Hsorted Hrows]. split.
  - apply StronglySorted_app; trivial.
    + apply line_tokens_sorted. apply lex_loop_sorted.
    + intros t1 t2 H1 H2.
      apply in_map_iff in H1. destruct H1 as ([col text] & <- & _).
      rewrite Forall_forall in Hrows. specialize (Hrows _ H2).
      destruct t2 as [[[f2 row2] col2] text2]. cbn in Hrows |- *. left. lia.
  - apply Forall_app. split.
    + apply Forall_map, Forall_forall. intros [col text] _. cbn. lia.
    + eapply Forall_impl; [|exact Hrows]. cbn. intros; lia.
Qed.

(** X3. The tokens of a file come in reading order: every token stands
    strictly before all the tokens that follow it in the list, on an
    earlier row or on the same row at an earlier column; so no position
    occurs twice. *)
Theorem lex_lines_sorted (file : string) (lines : list string) :
  StronglySorted token_before (lex_lines file lines).
Proof. apply (enumerated_tokens_sorted file lines 0). Qed.


(** ** No character is lost *)

(** The line without its whitespace, and the texts of tokens put
    together. *)
Fixpoint remove_whitespace (s : string) : string :=
  match s with
  | EmptyString => EmptyString
  | String c s' =>
      if Py.isspace c then remove_whitespace s'
      else String c (remove_whitespace s')
  end.

Fixpoint join (texts : list string) : string :=
  match texts with
  | [] => EmptyString
  | t :: texts' => t ++ join texts'
  end.

(** The part of a string from index [n] on. *)
Fixpoint drop (n : nat) (s : string) : string :=
  match n, s with
  | O, _ => s
  | S n', String _ s' => drop n' s'
  | S _, EmptyString => EmptyString
  end.

Lemma drop_all (s : string) (n : nat) : String.length s <= n -> drop n s = "".
Proof.
  revert n; induction s as [|c s IH]; intros [|n]; simpl; intros H;
    try reflexivity; try lia.
  apply IH. lia.
Qed.

Lemma drop_split (s : string) (a l : nat) :
  a + l <= String.length s -> drop a s = substring a l s ++ drop (a + l) s.
Proof.
  revert a l; induction s as [|c s IH]; intros [|a] [|l]; simpl; intros H;
    try reflexivity; try lia.
  - f_equal. apply (IH 0 l). simpl. lia.
  - rewrite (IH a 0) by lia. now rewrite Nat.add_0_r.
  - apply (IH a (S l)). lia.
Qed.

Lemma get_substring_inside (s : string) (a l i : nat) (c : ascii) :
  get i (substring a l s) = Some c -> i < l /\ get (a + i) s = Some c.
Proof.
  intros H. destruct (le_lt_dec l i) as [Hle|Hlt].
  - rewrite (substring_correct2 s a l i Hle) in H. discriminate.
  - split; trivial. now rewrite <- (get_substring s a l i Hlt).
Qed.

Lemma remove_whitespace_append (a b : string) :
  remove_whitespace (a ++ b) = remove_whitespace a ++ remove_whitespace b.
Proof.
  induction a as [|c a IH]; simpl; [reflexivity|].
  destruct (Py.isspace c); simpl; now rewrite IH.
Qed.

Lemma remove_whitespace_none (s : string) :
  no_whitespace s -> remove_whitespace s = s.
Proof.
  induction s as [|c s IH]; intros H; simpl; [reflexivity|].
  rewrite (H 0 c eq_refl). f_equal. apply IH.
  now apply no_whitespace_tail with c.
Qed.

Lemma remove_whitespace_all (s : string) :
  (forall i c, get i s = Some c -> Py.isspace c = true) ->
  remove_whitespace s = "".
Proof.
  induction s as [|c s IH]; intros H; simpl; [reflexivity|].
  rewrite (H 0 c eq_refl). apply IH. intros i a Ha. exact (H (S i) a Ha).
Qed.

(** The characters that one iteration of the scanner passes over: the
    token, then the whitespace after it. *)
Lemma chars_of_token (line : string) (col : nat) :
  no_whitespace (Py.slice line col (find_col line col Py.isspace)).
Proof.
  intros i c Hget. unfold Py.slice in Hget.
  apply get_substring_inside in Hget. destruct Hget as [Hi Hget].
  assert (Htok : token_char_at line (col + i) = true)
    by (apply scan_token_skipped with col; lia).
  unfold token_char_at, notspace in Htok. rewrite Hget in Htok.
  now destruct (Py.isspace c).
Qed.

Lemma chars_of_gap (line : string) (col : nat) (i : nat) (c : ascii) :
  get i (substring col (find_col line col notspace - col) line) = Some c ->
  Py.isspace c = true.
Proof.
  intros Hget. apply get_substring_inside in Hget. destruct Hget as [Hi Hget].
  assert (Hsp : space_at line (col + i) = true)
    by (apply scan_space_skipped with col; lia).
  unfold space_at in Hsp. now rewrite Hget in Hsp.
Qed.

Lemma skip_gap (line : string) (col : nat) :
  col <= String.length line ->
  remove_whitespace (drop col line)
  = remove_whitespace (drop (find_col line col notspace) line).
Proof.
  intros Hle.
  pose proof (find_col_ge line notspace col) as Hge.
  pose proof (find_col_le line notspace col Hle) as Hin.
  rewrite (drop_split line col (find_col line col notspace - col)) by lia.
  rewrite remove_whitespace_append, remove_whitespace_all
    by apply chars_of_gap.
  simpl. f_equal. f_equal. lia.
Qed.

Lemma lex_loop_keeps_text (line : string) (col : nat) :
  col <= String.length line ->
  join (map snd (lex_loop line col)) = remove_whitespace (drop col line).
Proof.
  remember (String.length line - col) as n eqn:Hn. revert col Hn.
  induction n as [n IH] using lt_wf_ind; intros col Hn Hle.
  destruct (le_lt_dec (String.length line) col) as [Hout|Hlt].
  { rewrite lex_loop_outside, drop_all by trivial. reflexivity. }
  rewrite lex_loop_inside by trivial. cbn [map snd join].
  pose proof (lex_step_progress line col Hlt) as Hprog.
  pose proof (find_col_ge line Py.isspace col) as Hge.
  pose proof (find_col_le line Py.isspace col Hle) as Hin.
  set (e := find_col line col Py.isspace) in *.
  pose proof (find_col_le line notspace e Hin) as Hin'.
  rewrite (IH (String.length line - find_col line e notspace)) by lia.
  rewrite <- (skip_gap line e Hin).
  rewrite (drop_split line col (e - col)) by lia.
  rewrite remove_whitespace_append.
  fold (Py.slice line col e). unfold e at 1 3.
  rewrite (remove_whitespace_none _ (chars_of_token line col)).
  fold e. f_equal. f_equal. f_equal. lia.
Qed.

(** X4. The scanner loses no character: the texts of the tokens of a
    line, put together in the order in which they are yielded, are the line
    with its whitespace characters removed. *)
Theorem lex_line_keeps_text (line : string) :
  join (map snd (lex_line line)) = remove_whitespace line.
Proof.
  unfold lex_line.
  pose proof (find_col_le line notspace 0 ltac:(lia)) as Hin.
  rewrite lex_loop_keeps_text by trivial.
  now rewrite <- (skip_gap line 0) by lia.
Qed.


(* ===================================================================== *)
(** * Printing and reading integers *)
(* ===================================================================== *)

Lemma scan_digits_numeral (d : uint) :
  Py.scan_digits (NilEmpty.string_of_uint d) true = Some d.
Proof.
  induction d; cbn [NilEmpty.string_of_uint Py.scan_digits]; trivial;
    cbn [Ascii.eqb Bool.eqb]; rewrite IHd; reflexivity.
Qed.

Lemma scan_digits_numeral_first (d : uint) :
  d <> Nil -> Py.scan_digits (NilEmpty.string_of_uint d) false = Some d.
Proof.
  intros Hd. pose proof (scan_digits_numeral d) as H.
  destruct d; try (now elim Hd); exact H.
Qed.

Lemma numeral_no_whitespace (d : uint) :
  no_whitespace (NilEmpty.string_of_uint d).
Proof.
  induction d; cbn [NilEmpty.string_of_uint]; intros [|i] c H;
    try discriminate; try (injection H as <-; reflexivity);
    exact (IHd i c H).
Qed.

Lemma split_sign_numeral (d : uint) :
  Py.split_sign (NilEmpty.string_of_uint d)
  = (false, NilEmpty.string_of_uint d).
Proof. destruct d; reflexivity. Qed.

Lemma within_limit (n : nat) :
  n <= Py.int_max_str_digits -> Py.exceeds_limit n = false.
Proof.
  intros H. unfold Py.exceeds_limit. apply Nat.ltb_ge in H.
  now rewrite H, andb_false_r.
Qed.

Lemma exceeds_limit_false (n : nat) :
  Py.exceeds_limit n = false -> n <= Py.int_max_str_digits.
Proof.
  unfold Py.exceeds_limit. intros H. apply andb_false_iff in H.
  destruct H as [H|H]; [discriminate|]. now apply Nat.ltb_ge in H.
Qed.

(** [int()] reads an unsigned and a negated numeral. *)
Lemma int_numeral (d : uint) :
  d <> Nil -> nb_digits d <= Py.int_max_str_digits ->
  Py.int (NilEmpty.string_of_uint d) = Some (Z.of_uint d)
  /\ Py.int (String "-" (NilEmpty.string_of_uint d)) = Some (- Z.of_uint d)%Z.
Proof.
  intros Hd Hlim. unfold Py.int. split.
  - rewrite (strip_no_whitespace _ (numeral_no_whitespace d)).
    rewrite split_sign_numeral, (scan_digits_numeral_first d Hd).
    now rewrite within_limit.
  - rewrite strip_no_whitespace.
    + cbn [Py.split_sign]. cbn [Ascii.eqb Bool.eqb].
      rewrite (scan_digits_numeral_first d Hd). now rewrite within_limit.
    + intros [|i] c H; [injection H as <-; reflexivity|].
      exact (numeral_no_whitespace d i c H).
Qed.

Lemma numeral_not_operator (d : uint) :
  d <> Nil ->
  NilEmpty.string_of_uint d <> "+" /\ NilEmpty.string_of_uint d <> "-"
  /\ NilEmpty.string_of_uint d <> "."
  /\ NilEmpty.string_of_uint d <> "".
Proof.
  intros Hd. destruct d; try (now elim Hd); repeat split; discriminate.
Qed.

(** X5. Printing and reading agree: the text that [%d] prints for an
    integer is a token that [parse_token_as_op] classifies as the push of
    that very integer. *)
Theorem parse_token_as_op_printed (v : Z) (text : string) :
  Py.str_int v = Py.Ok text ->
  parse_token_as_op text = Py.Ok [VOp OP_PUSH_INT; VInt v].
Proof.
  unfold Py.str_int.
  destruct (Py.exceeds_limit (Py.ndigits v)) eqn:Hlim; [discriminate|].
  intros [= <-]. apply exceeds_limit_false in Hlim.
  unfold Py.decimal, Py.ndigits in *.
  destruct v as [|p|p]; cbn [Z.to_int NilZero.string_of_int]; [reflexivity| |].
  - cbn [Z.abs_N N.to_uint] in Hlim.
    pose proof (DecimalPos.Unsigned.to_uint_nonnil p) as Hd.
    assert (Hs : NilZero.string_of_uint (Pos.to_uint p)
                 = NilEmpty.string_of_uint (Pos.to_uint p))
      by (unfold NilZero.string_of_uint; destruct (Pos.to_uint p);
          [now elim Hd|reflexivity..]).
    rewrite Hs.
    destruct (numeral_not_operator _ Hd) as (Hp & Hm & Hdot & _).
    rewrite parse_token_as_op_other by assumption.
    rewrite (proj1 (int_numeral _ Hd Hlim)).
    unfold Z.of_uint. now rewrite DecimalPos.Unsigned.of_to.
  - cbn [Z.abs_N N.to_uint] in Hlim.
    pose proof (DecimalPos.Unsigned.to_uint_nonnil p) as Hd.
    assert (Hs : NilZero.string_of_uint (Pos.to_uint p)
                 = NilEmpty.string_of_uint (Pos.to_uint p))
      by (unfold NilZero.string_of_uint; destruct (Pos.to_uint p);
          [now elim Hd|reflexivity..]).
    rewrite Hs.
    destruct (numeral_not_operator _ Hd) as (_ & _ & _ & Hne).
    rewrite parse_token_as_op_other.
    + rewrite (proj2 (int_numeral _ Hd Hlim)).
      unfold Z.of_uint. now rewrite DecimalPos.Unsigned.of_to.
    + discriminate.
    + intros [= H]. now elim Hne.
    + discriminate.
Qed.

Lemma parse_token_as_op_printed_witness :
  parse_token_as_op "-1200" = Py.Ok [VOp OP_PUSH_INT; VInt (-1200)].
Proof. apply (parse_token_as_op_printed (-1200) "-1200"). reflexivity. Defined.


(* ===================================================================== *)
(** * Further properties of the parser *)
(* ===================================================================== *)

Lemma str_int_decimal (z : Z) (s : string) :
  Py.str_int z = Py.Ok s -> s = Py.decimal z.
Proof.
  unfold Py.str_int. destruct (Py.exceeds_limit _); [discriminate|].
  now intros [= <-].
Qed.

Lemma parse_loop_one_diagnostic (tokens : list token) (acc : list tuple)
  (printed : list event) (result : Py.result (list tuple)) :
  parse_loop tokens acc = (printed, result) ->
  printed = []
  \/ (result = Py.Ok []
      /\ exists f row col text,
           In (f, row, col, text) tokens
           /\ parse_token_as_op text = Py.Raise (invalid_token text)
           /\ printed = [Print (diagnostic f row col text)]).
Proof.
  revert acc. induction tokens as [|[[[f row] col] text] tokens IH];
    intros acc H; cbn [parse_loop] in H.
  - injection H as <- _. now left.
  - destruct (parse_token_as_op text) as [t|e] eqn:E.
    + destruct (IH _ H) as [Hnil|(Hres & f' & r' & c' & t' & Hin & Hfail & Hp)];
        [now left|right].
      split; trivial. exists f', r', c', t'. split; [now right|now split].
    + pose proof (parse_token_as_op_raises _ _ E) as He. subst e.
      destruct (Py.str_int (Z.of_nat row + 1)) as [r|e1] eqn:Er;
        cbn [Py.bind] in H; [|injection H as <- _; now left].
      destruct (Py.str_int (Z.of_nat col + 1)) as [c|e2] eqn:Ec;
        cbn [Py.bind] in H; [|injection H as <- _; now left].
      injection H as <- <-. right. split; trivial.
      exists f, row, col, text. split; [now left|]. split; trivial.
      apply str_int_decimal in Er, Ec. subst r c. reflexivity.
Qed.

(** X6. At most one diagnostic: whatever the file holds, [parse_file]
    prints nothing or prints exactly one line; when it prints a line, this
    line is the diagnostic of a token of the file that fails
    classification, and the returned program is empty. *)
Theorem parse_file_one_diagnostic
  (read_lines : string -> Py.result (list string)) (file : string)
  (printed : list event) (result : Py.result (list tuple)) :
  parse_file read_lines file = (printed, result) ->
  printed = []
  \/ (result = Py.Ok []
      /\ exists lines row col text,
           read_lines file = Py.Ok lines
           /\ In (file, row, col, text) (lex_lines file lines)
           /\ parse_token_as_op text = Py.Raise (invalid_token text)
           /\ printed = [Print (diagnostic file row col text)]).
Proof.
  unfold parse_file, lex_file.
  destruct (read_lines file) as [lines|e]; cbn [Py.bind];
    [|intros [= <- _]; now left].
  intros H. apply parse_loop_one_diagnostic in H.
  destruct H as [Hnil|(Hres & f & row & col & text & Hin & Hfail & Hp)];
    [now left|right].
  split; trivial. exists lines, row, col, text.
  assert (Hf : f = file).
  { apply lex_lines_In in Hin.
    destruct Hin as (? & ? & ? & ? & [= -> _ _ _] & _). reflexivity. }
  subst f. auto.
Qed.

Lemma parse_file_one_diagnostic_witness :
  [Print "Error at a.sl:1:3: Invalid token abc"] = []
  \/ (Py.Ok [] = Py.Ok ([] : list tuple)
      /\ exists lines row col text,
           sample_invalid "a.sl" = Py.Ok lines
           /\ In ("a.sl", row, col, text) (lex_lines "a.sl" lines)
           /\ parse_token_as_op text = Py.Raise (invalid_token text)
           /\ [Print "Error at a.sl:1:3: Invalid token abc"]
              = [Print (diagnostic "a.sl" row col text)]).
Proof.
  apply (parse_file_one_diagnostic sample_invalid "a.sl"). reflexivity.
Defined.

(* ===================================================================== *)
(** * Further properties of the code generator *)
(* ===================================================================== *)

(** The operation that a tuple is compiled as: the head decides, a push
    takes the component after the head as its operand, and whatever
    components follow are not looked at. *)
Definition operation_of (t : tuple) : option Operation :=
  match t with
  | VOp OP_PUSH_INT :: VInt n :: _ =>
      if Py.exceeds_limit (Py.ndigits n) then None else Some (PushInt n)
  | VOp OP_PLUS :: _ => Some Plus
  | VOp OP_MINUS :: _ => Some Minus
  | VOp OP_DUMP :: _ => Some Dump
  | _ => None
  end.

Lemma str_int_Ok_iff (n : Z) :
  Py.exceeds_limit (Py.ndigits n) = false
  <-> Py.str_int n = Py.Ok (Py.decimal n).
Proof.
  unfold Py.str_int. destruct (Py.exceeds_limit _); split;
    try reflexivity; discriminate.
Qed.

(** A tuple that reads as an operation adds the template of it. *)
Lemma compile_loop_step (t : tuple) (ops : list tuple) (out : string)
  (o : Operation) :
  operation_of t = Some o ->
  compile_loop (t :: ops) out = compile_loop ops (out ++ template o).
Proof.
  intros Ho. destruct t as [|[[| | |]|n|] args]; try discriminate;
    cbn [operation_of] in Ho.
  - destruct args as [|[o'|n|] args]; try discriminate.
    destruct (Py.exceeds_limit (Py.ndigits n)) eqn:E; [discriminate|].
    injection Ho as <-. apply str_int_Ok_iff in E.
    cbn [compile_loop format_d]. rewrite E. cbn [Py.bind template].
    f_equal. unfold push_template, ln. now rewrite !append_assoc.
  - injection Ho as <-. cbn [compile_loop template]. f_equal.
    unfold plus_template, ln. now rewrite !append_assoc.
  - injection Ho as <-. cbn [compile_loop template]. f_equal.
    unfold minus_template, ln. now rewrite !append_assoc.
  - injection Ho as <-. cbn [compile_loop template]. f_equal.
    unfold dump_template, ln. now rewrite !append_assoc.
Qed.

(** A tuple that does not read as an operation raises, whatever follows
    it. *)
Lemma compile_loop_stops (t : tuple) (ops : list tuple) (out : string) :
  operation_of t = None ->
  exists e, forall ops' out', compile_loop (t :: ops') out' = Py.Raise e.
Proof.
  intros Ho. destruct t as [|[[| | |]|n|] args]; try discriminate;
    cbn [operation_of] in Ho; cbn [compile_loop].
  - eauto.
  - destruct args as [|[o'|n|] args]; cbn [format_d Py.bind]; eauto.
    destruct (Py.exceeds_limit (Py.ndigits n)) eqn:E; [|discriminate].
    unfold Py.str_int. rewrite E. cbn [Py.bind]. eauto.
  - cbn [format_s]. unfold Py.str_int.
    destruct (Py.exceeds_limit _); cbn [Py.bind]; eauto.
  - cbn [format_s Py.bind]. eauto.
Qed.

Lemma compile_loop_prefix (good more : list tuple) (prog : Program)
  (out : string) :
  map operation_of good = map Some prog ->
  compile_loop (good ++ more) out = compile_loop more (out ++ body prog).
Proof.
  revert prog out. induction good as [|t good IH]; intros prog out Hmap.
  - destruct prog; [|discriminate]. cbn [List.app body].
    now rewrite append_nil_r.
  - destruct prog as [|o prog]; [discriminate|].
    cbn [map] in Hmap. injection Hmap as Ho Hmap.
    cbn [List.app]. rewrite (compile_loop_step _ _ _ _ Ho), (IH prog _ Hmap).
    cbn [body]. now rewrite append_assoc.
Qed.

Lemma compile_ops_raises (ops : list tuple) (e : Py.exn) :
  compile_loop ops (prologue ++ entry_point) = Py.Raise e ->
  compile_ops ops = Py.Raise e.
Proof. intros H. now rewrite compile_ops_frame, H. Qed.

(** A tuple cut down to its head and operand reads as the same
    operation. *)
Lemma operation_of_encode (t : tuple) (o : Operation) :
  operation_of t = Some o -> operation_of (encode o) = Some o.
Proof.
  destruct t as [|[[| | |]|n|] args]; try discriminate; cbn [operation_of].
  - destruct args as [|[o'|n|] args]; try discriminate.
    destruct (Py.exceeds_limit (Py.ndigits n)) eqn:E; [discriminate|].
    intros [= <-]. cbn [encode operation_of]. now rewrite E.
  - now intros [= <-].
  - now intros [= <-].
  - now intros [= <-].
Qed.

Lemma operation_of_encode_all (ops : list tuple) (prog : Program) :
  map operation_of ops = map Some prog ->
  map operation_of (map encode prog) = map Some prog.
Proof.
  revert prog. induction ops as [|t ops IH]; intros [|o prog] Hmap;
    try discriminate; [reflexivity|].
  cbn [map] in Hmap |- *. injection Hmap as Ho Hmap.
  now rewrite (operation_of_encode t o Ho), (IH prog Hmap).
Qed.

Lemma compile_ops_operations (ops : list tuple) (prog : Program) :
  map operation_of ops = map Some prog ->
  compile_ops ops = Py.Ok (prologue ++ entry_point ++ body prog ++ epilogue).
Proof.
  intros Hmap. rewrite compile_ops_frame.
  rewrite <- (List.app_nil_r ops), (compile_loop_prefix ops [] prog _ Hmap).
  cbn [compile_loop Py.bind]. now rewrite !append_assoc.
Qed.

(** X7. [compile_ops] looks at the head of a tuple and, for [OP_PUSH_INT],
    at the component after the head, and at nothing else.  When every tuple
    starts with [OP_PLUS], [OP_MINUS] or [OP_DUMP], or with [OP_PUSH_INT]
    and an integer of at most 4300 digits, whatever components follow,
    [compile_ops] returns the prologue, the entry point, the templates of
    these operations in order and the epilogue: the text that it returns
    for the tuples cut down to head and operand. *)
Theorem compile_ops_ignores_further_components
  (ops : list tuple) (prog : Program) :
  map operation_of ops = map Some prog ->
  compile_ops ops = Py.Ok (prologue ++ entry_point ++ body prog ++ epilogue)
  /\ compile_ops ops = compile_ops (map encode prog).
Proof.
  intros Hmap. split; [now apply compile_ops_operations|].
  rewrite (compile_ops_operations ops prog Hmap).
  symmetry. apply compile_ops_operations.
  now apply (operation_of_encode_all ops).
Qed.

Lemma compile_ops_ignores_further_components_witness :
  compile_ops [[VOp OP_PUSH_INT; VInt 4; VNone]; [VOp OP_DUMP; VInt 1]]
  = Py.Ok (prologue ++ entry_point ++ body [PushInt 4; Dump] ++ epilogue)
  /\ compile_ops [[VOp OP_PUSH_INT; VInt 4; VNone]; [VOp OP_DUMP; VInt 1]]
     = compile_ops [[VOp OP_PUSH_INT; VInt 4]; [VOp OP_DUMP]].
Proof.
  apply (compile_ops_ignores_further_components
           [[VOp OP_PUSH_INT; VInt 4; VNone]; [VOp OP_DUMP; VInt 1]]
           [PushInt 4; Dump]).
  reflexivity.
Defined.

(** X8. The first tuple that does not read as an operation decides the
    failure of [compile_ops]: after tuples that do, it raises an exception
    that does not depend on the tuples after it.  An empty tuple raises a
    [ValueError] (nothing to unpack), [OP_PUSH_INT] without an operand an
    [IndexError], [OP_PUSH_INT] whose operand is [None] or a member of
    [Op] a [TypeError], and [OP_PUSH_INT] with an integer of more than 4300
    digits a [ValueError]. *)
Theorem compile_ops_first_malformed (good : list tuple) (prog : Program)
  (bad : tuple) (rest : list tuple) :
  map operation_of good = map Some prog ->
  operation_of bad = None ->
  exists e,
    compile_ops (good ++ bad :: rest) = Py.Raise e
    /\ (forall rest', compile_ops (good ++ bad :: rest') = Py.Raise e)
    /\ (bad = [] -> Py.exn_cls e = Py.ValueError)
    /\ (bad = [VOp OP_PUSH_INT] -> Py.exn_cls e = Py.IndexError)
    /\ (forall arg more,
           bad = VOp OP_PUSH_INT :: arg :: more ->
           arg = VNone \/ (exists o, arg = VOp o) ->
           Py.exn_cls e = Py.TypeError)
    /\ (forall n more,
           bad = VOp OP_PUSH_INT :: VInt n :: more ->
           Py.exn_cls e = Py.ValueError).
Proof.
  intros Hgood Hbad.
  destruct (compile_loop_stops bad rest "" Hbad) as [e He].
  exists e.
  assert (Hall : forall rest', compile_ops (good ++ bad :: rest') = Py.Raise e).
  { intros rest'. apply compile_ops_raises.
    now rewrite (compile_loop_prefix good _ prog _ Hgood), He. }
  split; [apply Hall|]. split; [exact Hall|].
  specialize (He [] ""). repeat split.
  - intros ->. cbn in He. now injection He as <-.
  - intros ->. cbn in He. now injection He as <-.
  - intros arg more -> [->|[o ->]]; cbn [compile_loop format_d Py.bind] in He;
      now injection He as <-.
  - intros n more ->. cbn [operation_of] in Hbad.
    destruct (Py.exceeds_limit (Py.ndigits n)) eqn:E; [|discriminate].
    cbn [compile_loop format_d] in He. unfold Py.str_int in He.
    rewrite E in He. cbn [Py.bind] in He. now injection He as <-.
Qed.

Lemma compile_ops_first_malformed_witness :
  exists e,
    compile_ops ([[VOp OP_PLUS]] ++ [VOp OP_PUSH_INT; VNone] :: [[VOp OP_DUMP]])
    = Py.Raise e
    /\ Py.exn_cls e = Py.TypeError.
Proof.
  destruct (compile_ops_first_malformed [[VOp OP_PLUS]] [Plus]
              [VOp OP_PUSH_INT; VNone] [[VOp OP_DUMP]] eq_refl eq_refl)
    as (e & He & _ & _ & _ & Htype & _).
  exists e. split; [exact He|].
  apply (Htype VNone []); [reflexivity|now left].
Defined.


(* ===================================================================== *)
(** * Further properties of the driver *)
(* ===================================================================== *)

Lemma repr_tuple_encode (o : Operation) :
  operand_printable o -> exists r, repr_tuple (encode o) = Py.Ok r.
Proof.
  destruct o as [v| | |]; cbn [operand_printable encode]; intros H.
  - cbn [repr_tuple repr_items repr format_s Py.bind]. rewrite H.
    cbn [Py.bind]. eauto.
  - cbn. eauto.
  - cbn. eauto.
  - cbn. eauto.
Qed.

Lemma repr_tuples_program (prog : Program) :
  Forall operand_printable prog ->
  exists r, repr_tuples (map encode prog) = Py.Ok r.
Proof.
  induction 1 as [|o prog Ho _ [r Hr]]; [cbn; eauto|].
  destruct (repr_tuple_encode o Ho) as [a Ha].
  cbn [map repr_tuples]. destruct (map encode prog) as [|t ts] eqn:E.
  - eauto.
  - rewrite Ha, Hr. cbn [Py.bind]. eauto.
Qed.

(** What [print(ops)] shows exists for every program of the parser. *)
Lemma repr_ops_program (prog : Program) :
  Forall operand_printable prog ->
  exists r, repr_ops (map encode prog) = Py.Ok r.
Proof.
  intros H. destruct (repr_tuples_program prog H) as [r Hr].
  unfold repr_ops. rewrite Hr. cbn [Py.bind]. eauto.
Qed.

(** The steps of the [try] block of [main], in their order. *)
Definition pipeline_trace (ops : list tuple) (text : string) : list event :=
  [Compile ops;
   WriteFile "out.asm" text;
   Print "Compiled to out.asm";
   Print "Running nasm...";
   Spawn ["nasm"; "-felf64"; "out.asm"];
   Print "Linking...";
   Spawn ["ld"; "-o"; "out"; "out.o"];
   Print "Running...";
   Spawn ["./out"]].

Section Pipeline.

Variable read_lines : string -> Py.result (list string).
Variable write_file : string -> string -> option Py.exn.
Variable spawn : list string -> option Py.exn.

(** The step [ev] raises [e]. *)
Definition raises (ev : event) (e : Py.exn) : Prop :=
  match ev with
  | WriteFile name content => write_file name content = Some e
  | Spawn argv => spawn argv = Some e
  | Print _ | Compile _ => False
  end.

(** No step of the list raises. *)
Definition all_pass (events : list event) : Prop :=
  forall ev e, In ev events -> ~ raises ev e.

Lemma compile_and_run_steps (ops : list tuple) (text : string) :
  compile_ops ops = Py.Ok text ->
  (compile_and_run write_file spawn ops = (pipeline_trace ops text, Py.Ok tt)
   /\ all_pass (pipeline_trace ops text))
  \/ exists n e,
       2 <= n <= 9
       /\ compile_and_run write_file spawn ops
          = (firstn n (pipeline_trace ops text), Py.Raise e)
       /\ raises (nth (n - 1) (pipeline_trace ops text) (Print "")) e
       /\ all_pass (firstn (n - 1) (pipeline_trace ops text)).
Proof.
  intros Hc. unfold compile_and_run, attempt. rewrite Hc.
  destruct (write_file "out.asm" text) as [e|] eqn:Hw.
  { right. exists 2, e. repeat split; try lia; trivial.
    cbn. intros ev e' [<-|[]] H. exact H. }
  destruct (spawn ["nasm"; "-felf64"; "out.asm"]) as [e|] eqn:H1.
  { right. exists 5, e. repeat split; try lia; trivial.
    intros ev e' H. cbn in H. decompose [or] H; subst; cbn; try tauto; congruence. }
  destruct (spawn ["ld"; "-o"; "out"; "out.o"]) as [e|] eqn:H2.
  { right. exists 7, e. repeat split; try lia; trivial.
    intros ev e' H. cbn in H. decompose [or] H; subst; cbn; try tauto; congruence. }
  destruct (spawn ["./out"]) as [e|] eqn:H3.
  { right. exists 9, e. repeat split; try lia; trivial.
    intros ev e' H. cbn in H. decompose [or] H; subst; cbn; try tauto; congruence. }
  left. split; [reflexivity|].
  intros ev e' H. cbn in H. decompose [or] H; subst; cbn; try tauto; congruence.
Qed.

(** X9. A run of [main] on a file that parses to a non-empty program:
    it prints the program, calls the code generator, which returns a text,
    writes this text to [out.asm], and runs [nasm], [ld] and [./out] in
    this order, announcing each.  Each step is taken only when no step
    before it has raised; when a step raises, the steps after it are not
    taken and the message of the exception is printed instead.  No
    exception leaves [main]. *)
Theorem main_runs_pipeline (argv : list string) (printed : list event)
  (ops : list tuple) :
  2 <= List.length argv ->
  parse_file read_lines (nth 1 argv "") = (printed, Py.Ok ops) ->
  ops <> [] ->
  exists text shown,
    compile_ops ops = Py.Ok text
    /\ repr_ops ops = Py.Ok shown
    /\ ((main read_lines write_file spawn argv
         = ((printed ++ Print shown :: pipeline_trace ops text)%list, None)
         /\ all_pass (pipeline_trace ops text))
        \/ exists n e,
             2 <= n <= 9
             /\ main read_lines write_file spawn argv
                = ((printed ++ Print shown
                    :: firstn n (pipeline_trace ops text)
                    ++ [Print (Py.exn_msg e)])%list, None)
             /\ raises (nth (n - 1) (pipeline_trace ops text) (Print "")) e
             /\ all_pass (firstn (n - 1) (pipeline_trace ops text))).
Proof.
  intros Hargv Hparse Hne.
  destruct (parse_file_program _ _ _ _ Hparse) as (prog & -> & Hprog).
  pose proof (compile_ops_program prog Hprog) as Hc.
  destruct (repr_ops_program prog Hprog) as [shown Hshown].
  exists (prologue ++ entry_point ++ body prog ++ epilogue), shown.
  split; [exact Hc|]. split; [exact Hshown|].
  assert (Hlen : (List.length argv <? 2)%nat = false) by now apply Nat.ltb_ge.
  assert (Hlen' : (List.length (map encode prog) =? 0)%nat = false).
  { apply Nat.eqb_neq. destruct prog; [now elim Hne|discriminate]. }
  unfold main. rewrite Hlen, Hparse, Hshown, Hlen'.
  destruct (compile_and_run_steps _ _ Hc)
    as [[Hrun Hpass]|(n & e & Hn & Hrun & Hraise & Hpass)]; rewrite Hrun.
  - left. now split.
  - right. exists n, e. repeat split; trivial; lia.
Qed.

End Pipeline.

Lemma main_runs_pipeline_witness :
  exists text shown,
    compile_ops [[VOp OP_PUSH_INT; VInt 10]; [VOp OP_PUSH_INT; VInt 3];
                 [VOp OP_MINUS]; [VOp OP_DUMP]] = Py.Ok text
    /\ repr_ops [[VOp OP_PUSH_INT; VInt 10]; [VOp OP_PUSH_INT; VInt 3];
                 [VOp OP_MINUS]; [VOp OP_DUMP]] = Py.Ok shown.
Proof.
  destruct (main_runs_pipeline sample_one_line (fun _ _ => None)
              (fun _ => None) ["main.py"; "a.sl"] []
              [[VOp OP_PUSH_INT; VInt 10]; [VOp OP_PUSH_INT; VInt 3];
               [VOp OP_MINUS]; [VOp OP_DUMP]] (le_n 2) eq_refl)
    as (text & shown & Hc & Hs & _); [discriminate|].
  now exists text, shown.
Defined.


(** X10. Runs without a program: with fewer than two arguments [main]
    prints the usage line and does nothing else, whatever the environment;
    and when the file cannot be read, the exception of [open] passes
    through [lex_file], [parse_file] and [main] uncaught, with nothing
    printed, written or run. *)
Theorem main_without_program
  (read_lines : string -> Py.result (list string))
  (write_file : string -> string -> option Py.exn)
  (spawn : list string -> option Py.exn) (argv : list string) :
  (List.length argv < 2 ->
   main read_lines write_file spawn argv
   = ([Print "Usage: main.py <file>"], None))
  /\ (forall e,
         2 <= List.length argv ->
         read_lines (nth 1 argv "") = Py.Raise e ->
         lex_file read_lines (nth 1 argv "") = Py.Raise e
         /\ parse_file read_lines (nth 1 argv "") = ([], Py.Raise e)
         /\ main read_lines write_file spawn argv = ([], Some e)).
Proof.
  split.
  - intros H. unfold main. apply Nat.ltb_lt in H. now rewrite H.
  - intros e H Hread. apply Nat.ltb_ge in H.
    unfold main, parse_file, lex_file. rewrite H, Hread. cbn [Py.bind].
    auto.
Qed.

Lemma main_without_program_witness :
  main (fun _ => Py.Raise (Py.mk_exn Py.OSError "No such file"))
       (fun _ _ => None) (fun _ => None) ["main.py"; "a.sl"]
  = ([], Some (Py.mk_exn Py.OSError "No such file"))
  /\ main sample_valid (fun _ _ => None) (fun _ => None) []
     = ([Print "Usage: main.py <file>"], None).
Proof.
  split.
  - apply (proj2 (main_without_program
                    (fun _ => Py.Raise (Py.mk_exn Py.OSError "No such file"))
                    (fun _ _ => None) (fun _ => None) ["main.py"; "a.sl"])
             (Py.mk_exn Py.OSError "No such file") (le_n 2) eq_refl).
  - apply (proj1 (main_without_program sample_valid (fun _ _ => None)
                    (fun _ => None) [])).
    simpl. lia.
Defined.


(* ===================================================================== *)
(** * What the generated code computes *)
(* ===================================================================== *)

(** The stack machine of the language: a stack of 64-bit words and the
    words printed so far; [None] when an operation finds too few words on
    the stack. *)
Fixpoint exec (prog : Program) (stack out : list Z)
  : option (list Z * list Z) :=
  match prog with
  | [] => Some (stack, out)
  | PushInt v :: prog' => exec prog' (X86.wrap v :: stack) out
  | Plus :: prog' =>
      match stack with
      | b :: a :: s => exec prog' (X86.wrap (b + a) :: s) out
      | _ => None
      end
  | Minus :: prog' =>
      match stack with
      | b :: a :: s => exec prog' (X86.wrap (a - b) :: s) out
      | _ => None
      end
  | Dump :: prog' =>
      match stack with
      | v :: s => exec prog' s (out ++ [v])
      | [] => None
      end
  end.

(** The instructions of each template, and of the epilogue. *)
Definition code_of (o : Operation) : list X86.instr :=
  match o with
  | PushInt v => [X86.PushImm v]
  | Plus => [X86.PopReg X86.RAX; X86.PopReg X86.RBX;
             X86.AddRR X86.RAX X86.RBX; X86.PushReg X86.RAX]
  | Minus => minus_code
  | Dump => [X86.PopReg X86.RDI; X86.CallDump]
  end.

Definition exit_code_instrs : list X86.instr :=
  [X86.MovImm X86.RAX 60; X86.MovImm X86.RDI 0; X86.Syscall].

(** An operand that a [push] instruction can hold. *)
Definition operand_imm32 (o : Operation) : Prop :=
  match o with
  | PushInt v => (- 2 ^ 31 <= v < 2 ^ 31)%Z
  | _ => True
  end.

(** ** Reading the text back *)

Fixpoint no_newline (s : string) : bool :=
  match s with
  | EmptyString => true
  | String c s' => negb (c =? "010")%char && no_newline s'
  end.

Lemma lines_of_ln (s rest : string) :
  no_newline s = true -> X86.lines_of (ln s ++ rest) = s :: X86.lines_of rest.
Proof.
  unfold ln. induction s as [|c s IH]; intros H.
  - reflexivity.
  - cbn [no_newline] in H. apply andb_true_iff in H. destruct H as [Hc Hs].
    cbn [append X86.lines_of]. apply negb_true_iff in Hc. rewrite Hc.
    now rewrite (IH Hs).
Qed.

Lemma no_newline_append (a b : string) :
  no_newline (a ++ b) = no_newline a && no_newline b.
Proof.
  induction a as [|c a IH]; cbn [append no_newline]; [reflexivity|].
  now rewrite IH, andb_assoc.
Qed.

Lemma numeral_no_newline (d : uint) :
  no_newline (NilEmpty.string_of_uint d) = true.
Proof. induction d; cbn [NilEmpty.string_of_uint no_newline]; trivial. Qed.

(** The decimal text of an integer: a numeral, or [-] and a numeral. *)
Lemma decimal_cases (v : Z) :
  exists d, d <> Nil
            /\ (Py.decimal v = NilEmpty.string_of_uint d
                \/ Py.decimal v = String "-" (NilEmpty.string_of_uint d)).
Proof.
  assert (Hnz : forall d, d <> Nil ->
             NilZero.string_of_uint d = NilEmpty.string_of_uint d)
    by (intros d Hd; destruct d; [now elim Hd|reflexivity..]).
  unfold Py.decimal. destruct v as [|p|p]; cbn [Z.to_int NilZero.string_of_int].
  - exists (D0 Nil). split; [discriminate|now left].
  - exists (Pos.to_uint p).
    pose proof (DecimalPos.Unsigned.to_uint_nonnil p) as Hd.
    split; trivial. left. now apply Hnz.
  - exists (Pos.to_uint p).
    pose proof (DecimalPos.Unsigned.to_uint_nonnil p) as Hd.
    split; trivial. right. f_equal. now apply Hnz.
Qed.

Lemma decimal_no_newline (v : Z) : no_newline (Py.decimal v) = true.
Proof.
  destruct (decimal_cases v) as (d & _ & [-> | ->]);
    cbn [no_newline]; now rewrite numeral_no_newline.
Qed.

Lemma reg_of_decimal (v : Z) : X86.reg_of (Py.decimal v) = None.
Proof.
  destruct (decimal_cases v) as (d & Hd & [-> | ->]); [|reflexivity].
  destruct d; [now elim Hd|reflexivity..].
Qed.

Lemma imm_of_decimal (v : Z) : X86.imm_of (Py.decimal v) = Some v.
Proof.
  unfold X86.imm_of, Py.decimal. rewrite NilZero.isi.
  - cbn [option_map]. now rewrite DecimalZ.of_to.
  - destruct v as [|p|p]; try discriminate.
    intros [= H]. now apply DecimalPos.Unsigned.to_uint_nonnil in H.
  - destruct v as [|p|p]; try discriminate.
    intros [= H]. now apply DecimalPos.Unsigned.to_uint_nonnil in H.
Qed.

Lemma decode_line_push (v : Z) :
  X86.decode_line ("    push " ++ Py.decimal v) = Some (Some (X86.PushImm v)).
Proof.
  unfold X86.decode_line.
  change (X86.skip_spaces ("    push " ++ Py.decimal v))
    with ("push " ++ Py.decimal v).
  change ("push " ++ Py.decimal v)
    with (String "p" (String "u" (String "s" (String "h"
            (String " " (Py.decimal v)))))).
  cbn [String.eqb Ascii.eqb Bool.eqb X86.strip_prefix andb].
  now rewrite reg_of_decimal, imm_of_decimal.
Qed.

Lemma decode_line_comment (s : string) :
  X86.decode_line ("    ;; -- " ++ s) = Some None.
Proof. reflexivity. Qed.

(** The lines of a template read as its instructions. *)
Lemma decode_template (o : Operation) (rest : string) :
  X86.decode_lines (X86.lines_of (template o ++ rest))
  = match X86.decode_lines (X86.lines_of rest) with
    | Some code => Some (code_of o ++ code)%list
    | None => None
    end.
Proof.
  destruct o as [v| | |]; cbn [template code_of].
  - unfold push_template. rewrite !append_assoc.
    rewrite !lines_of_ln.
    + cbn [X86.decode_lines].
      change ("    ;; -- push " ++ Py.decimal v ++ " --")
        with ("    ;; -- " ++ "push " ++ Py.decimal v ++ " --").
      rewrite decode_line_comment, decode_line_push.
      now destruct (X86.decode_lines (X86.lines_of rest)).
    + rewrite no_newline_append. now rewrite decimal_no_newline.
    + rewrite !no_newline_append. now rewrite decimal_no_newline.
  - unfold plus_template. rewrite !append_assoc.
    rewrite !lines_of_ln by reflexivity. cbn [X86.decode_lines].
    now destruct (X86.decode_lines (X86.lines_of rest)).
  - unfold minus_template. rewrite !append_assoc.
    rewrite !lines_of_ln by reflexivity. cbn [X86.decode_lines].
    now destruct (X86.decode_lines (X86.lines_of rest)).
  - unfold dump_template. rewrite !append_assoc.
    rewrite !lines_of_ln by reflexivity. cbn [X86.decode_lines].
    now destruct (X86.decode_lines (X86.lines_of rest)).
Qed.

Lemma decode_body (prog : Program) :
  X86.decode_lines (X86.lines_of (body prog ++ epilogue))
  = Some (flat_map code_of prog ++ exit_code_instrs)%list.
Proof.
  induction prog as [|o prog IH]; cbn [body flat_map].
  - reflexivity.
  - rewrite append_assoc, decode_template, IH.
    now rewrite List.app_assoc.
Qed.

(** Execution starts after the label [_start:], where the body begins. *)
Lemma after_start_text (rest : string) :
  X86.after_start (X86.lines_of (prologue ++ entry_point ++ rest))
  = X86.lines_of rest.
Proof.
  unfold prologue, entry_point. rewrite !append_assoc.
  rewrite !lines_of_ln by reflexivity. reflexivity.
Qed.

Lemma decode_program_text (prog : Program) :
  X86.decode_program (prologue ++ entry_point ++ body prog ++ epilogue)
  = Some (flat_map code_of prog ++ exit_code_instrs)%list.
Proof.
  unfold X86.decode_program. now rewrite after_start_text, decode_body.
Qed.


(** ** Running the instructions *)

Lemma run_app (c1 c2 : list X86.instr) (m : X86.machine) :
  X86.run (c1 ++ c2) m
  = match X86.run c1 m with
    | Some m' => X86.run c2 m'
    | None => None
    end.
Proof.
  revert m. induction c1 as [|i c1 IH]; intros m; [reflexivity|].
  cbn [List.app X86.run].
  destruct (X86.exit_code m) eqn:E.
  - destruct c2; cbn [X86.run]; [reflexivity|now rewrite E].
  - destruct (X86.step i m); [apply IH|reflexivity].
Qed.

(** What is observed of a machine: its stack and the words printed. *)
Definition observe (m : X86.machine) : list Z * list Z :=
  (X86.stack m, X86.output m).

(** The instructions of a program act on stack and output as the stack
    machine does, and get stuck where the stack machine fails. *)
Lemma run_code_of (prog : Program) (m : X86.machine) :
  Forall operand_imm32 prog ->
  X86.exit_code m = None ->
  match exec prog (X86.stack m) (X86.output m) with
  | Some final =>
      exists m', X86.run (flat_map code_of prog) m = Some m'
                 /\ observe m' = final /\ X86.exit_code m' = None
  | None => X86.run (flat_map code_of prog) m = None
  end.
Proof.
  intros Hall. revert m.
  induction Hall as [|o prog Ho _ IH]; intros m Hexit.
  - cbn [exec flat_map X86.run]. eauto.
  - destruct m as [ax bx di st out ex]. cbn in Hexit. subst ex.
    cbn [flat_map]. rewrite run_app.
    destruct o as [v| | |]; cbn [exec code_of minus_code X86.stack X86.output].
    + cbn [operand_imm32] in Ho.
      assert (Hv : ((- 2 ^ 31 <=? v) && (v <? 2 ^ 31))%Z = true).
      { apply andb_true_iff. split; [apply Z.leb_le|apply Z.ltb_lt]; lia. }
      cbn [X86.run X86.exit_code X86.step]. rewrite Hv.
      apply (IH (X86.mk_machine ax bx di (X86.wrap v :: st) out None)).
      reflexivity.
    + destruct st as [|b [|a s]]; try reflexivity.
      apply (IH (X86.mk_machine (Some (X86.wrap (b + a))) (Some a) di
                   (X86.wrap (b + a) :: s) out None)).
      reflexivity.
    + destruct st as [|b [|a s]]; try reflexivity.
      apply (IH (X86.mk_machine (Some b) (Some (X86.wrap (a - b))) di
                   (X86.wrap (a - b) :: s) out None)).
      reflexivity.
    + destruct st as [|v s]; try reflexivity.
      apply (IH (X86.mk_machine None bx None s (out ++ [v]) None)).
      reflexivity.
Qed.

(** X11. The generated code computes what the stack machine computes.
    For every program whose operands fit a [push] instruction,
    [compile_ops] returns a text; the lines of this text after [_start:]
    read as the instructions of the templates, in program order, followed
    by the exit sequence; and run from the initial state they print the
    words, and leave the stack, that the stack machine of the language
    does, and then exit with code 0; where the stack machine fails for lack
    of operands, the run is not defined. *)
Theorem compiled_code_runs (prog : Program) :
  Forall operand_imm32 prog ->
  exists text code,
    compile_ops (map encode prog) = Py.Ok text
    /\ X86.decode_program text = Some code
    /\ code = (flat_map code_of prog ++ exit_code_instrs)%list
    /\ match exec prog [] [] with
       | Some (stack, out) =>
           exists m, X86.run code X86.start = Some m
                     /\ X86.stack m = stack
                     /\ X86.output m = out
                     /\ X86.exit_code m = Some 0%Z
       | None => X86.run code X86.start = None
       end.
Proof.
  intros Hall.
  assert (Hprint : Forall operand_printable prog).
  { eapply Forall_impl; [|exact Hall]. intros o Ho.
    apply operand_int64_printable. destruct o; cbn in *; trivial.
    unfold int64. lia. }
  exists (prologue ++ entry_point ++ body prog ++ epilogue),
         (flat_map code_of prog ++ exit_code_instrs)%list.
  split; [now apply compile_ops_program|].
  split; [apply decode_program_text|]. split; [reflexivity|].
  rewrite run_app.
  pose proof (run_code_of prog X86.start Hall eq_refl) as Hrun.
  cbn [X86.start X86.stack X86.output] in Hrun.
  destruct (exec prog [] []) as [[stack out]|].
  - destruct Hrun as (m' & -> & Hobs & Hexit).
    destruct m' as [ax bx di st o ex]. cbn in Hexit. subst ex.
    injection Hobs as -> ->. cbn. eauto.
  - now rewrite Hrun.
Qed.

Lemma compiled_code_runs_witness :
  exists text code,
    compile_ops (map encode [PushInt 2; PushInt 3; Plus; Dump]) = Py.Ok text
    /\ X86.decode_program text = Some code
    /\ code = (flat_map code_of [PushInt 2; PushInt 3; Plus; Dump]
               ++ exit_code_instrs)%list
    /\ exists m, X86.run code X86.start = Some m
                 /\ X86.stack m = []
                 /\ X86.output m = [5%Z]
                 /\ X86.exit_code m = Some 0%Z.
Proof.
  apply (compiled_code_runs [PushInt 2; PushInt 3; Plus; Dump]).
  repeat constructor; cbn; lia.
Defined.


(* ===================================================================== *)
(** * The subroutine [dump] *)
(* ===================================================================== *)

(** The prologue holds the subroutine [dump] as assembly text.  This
    module gives the instructions that occur in it, their rendering as
    lines of text, and their meaning on x86-64: 64-bit registers, a
    byte-addressed memory, the carry and zero flags, and the [write]
    system call of Linux. *)
Module Asm.

Inductive reg : Type := RAX | RCX | RDX | RSI | RDI | R8 | R9 | RSP.

(** An effective address [[base + disp + index * scale]]. *)
Record addr : Type := mk_addr {
  base : reg;
  disp : Z;
  index : option (reg * Z)
}.

Inductive instr : Type :=
| MovRI (dst : reg) (imm : Z)
| MovRR (dst src : reg)
| Mov32RI (dst : reg) (imm : Z)
| MovByteMI (a : addr) (imm : Z)
| MovByteMR (a : addr) (src : reg)
| Lea (dst : reg) (a : addr)
| AddRR (dst src : reg)
| AddRI (dst : reg) (imm : Z)
| Add32RI (dst : reg) (imm : Z)
| SubRR (dst src : reg)
| SubRI (dst : reg) (imm : Z)
| Mul (src : reg)
| ShrRI (dst : reg) (count : Z)
| Xor32RR (dst src : reg)
| CmpRI (r : reg) (imm : Z)
| Ja (target : string)
| Syscall
| Ret.

Inductive item : Type :=
| Label (name : string)
| Ins (i : instr).

(** ** The text of instructions *)

Definition name64 (r : reg) : string :=
  match r with
  | RAX => "rax" | RCX => "rcx" | RDX => "rdx" | RSI => "rsi"
  | RDI => "rdi" | R8 => "r8" | R9 => "r9" | RSP => "rsp"
  end.

Definition name32 (r : reg) : string :=
  match r with
  | RAX => "eax" | RCX => "ecx" | RDX => "edx" | RSI => "esi"
  | RDI => "edi" | R8 => "r8d" | R9 => "r9d" | RSP => "esp"
  end.

Definition name8 (r : reg) : string :=
  match r with
  | RAX => "al" | RCX => "cl" | RDX => "dl" | RSI => "sil"
  | RDI => "dil" | R8 => "r8b" | R9 => "r9b" | RSP => "spl"
  end.

Definition show_addr (a : addr) : string :=
  "[" ++ name64 (base a)
  ++ (if (disp a =? 0)%Z then "" else "+" ++ Py.decimal (disp a))
  ++ match index a with
     | None => ""
     | Some (r, scale) =>
         "+" ++ name64 r
         ++ (if (scale =? 1)%Z then "" else "*" ++ Py.decimal scale)
     end
  ++ "]".

(** A mnemonic in a column of eight characters, then the operands. *)
Definition op2 (mnemonic a b : string) : string :=
  "    " ++ mnemonic ++ substring 0 (8 - String.length mnemonic) "        "
  ++ a ++ ", " ++ b.

Definition op1 (mnemonic a : string) : string :=
  "    " ++ mnemonic ++ substring 0 (8 - String.length mnemonic) "        "
  ++ a.

Definition show (i : instr) : string :=
  match i with
  | MovRI dst imm => op2 "mov" (name64 dst) (Py.decimal imm)
  | MovRR dst src => op2 "mov" (name64 dst) (name64 src)
  | Mov32RI dst imm => op2 "mov" (name32 dst) (Py.decimal imm)
  | MovByteMI a imm => op2 "mov" ("BYTE " ++ show_addr a) (Py.decimal imm)
  | MovByteMR a src => op2 "mov" ("BYTE " ++ show_addr a) (name8 src)
  | Lea dst a => op2 "lea" (name64 dst) (show_addr a)
  | AddRR dst src => op2 "add" (name64 dst) (name64 src)
  | AddRI dst imm => op2 "add" (name64 dst) (Py.decimal imm)
  | Add32RI dst imm => op2 "add" (name32 dst) (Py.decimal imm)
  | SubRR dst src => op2 "sub" (name64 dst) (name64 src)
  | SubRI dst imm => op2 "sub" (name64 dst) (Py.decimal imm)
  | Mul src => op1 "mul" (name64 src)
  | ShrRI dst count => op2 "shr" (name64 dst) (Py.decimal count)
  | Xor32RR dst src => op2 "xor" (name32 dst) (name32 src)
  | CmpRI r imm => op2 "cmp" (name64 r) (Py.decimal imm)
  | Ja target => op1 "ja" target
  | Syscall => "    syscall"
  | Ret => "    ret"
  end.

Definition show_item (it : item) : string :=
  match it with
  | Label name => name ++ ":"
  | Ins i => show i
  end.

Fixpoint render (items : list item) : string :=
  match items with
  | [] => ""
  | it :: items' => show_item it ++ Py.nl ++ render items'
  end.

(** ** The machine *)

Definition W : Z := (2 ^ 64)%Z.

Definition wrap (z : Z) : Z := (z mod W)%Z.

(** Registers and memory hold unsigned values; [flags] holds the carry
    and the zero flag, or [None] when an instruction leaves one of them
    undefined; [written] collects the calls of [write]: the file descriptor
    and the bytes. *)
Record state : Type := mk_state {
  rax : Z; rcx : Z; rdx : Z; rsi : Z; rdi : Z; r8 : Z; r9 : Z; rsp : Z;
  mem : Z -> Z;
  flags : option (bool * bool);
  written : list (Z * list Z)
}.

Definition get (r : reg) (s : state) : Z :=
  match r with
  | RAX => rax s | RCX => rcx s | RDX => rdx s | RSI => rsi s
  | RDI => rdi s | R8 => r8 s | R9 => r9 s | RSP => rsp s
  end.

Definition set (r : reg) (v : Z) (s : state) : state :=
  match r with
  | RAX => mk_state v (rcx s) (rdx s) (rsi s) (rdi s) (r8 s) (r9 s) (rsp s)
             (mem s) (flags s) (written s)
  | RCX => mk_state (rax s) v (rdx s) (rsi s) (rdi s) (r8 s) (r9 s) (rsp s)
             (mem s) (flags s) (written s)
  | RDX => mk_state (rax s) (rcx s) v (rsi s) (rdi s) (r8 s) (r9 s) (rsp s)
             (mem s) (flags s) (written s)
  | RSI => mk_state (rax s) (rcx s) (rdx s) v (rdi s) (r8 s) (r9 s) (rsp s)
             (mem s) (flags s) (written s)
  | RDI => mk_state (rax s) (rcx s) (rdx s) (rsi s) v (r8 s) (r9 s) (rsp s)
             (mem s) (flags s) (written s)
  | R8 => mk_state (rax s) (rcx s) (rdx s) (rsi s) (rdi s) v (r9 s) (rsp s)
            (mem s) (flags s) (written s)
  | R9 => mk_state (rax s) (rcx s) (rdx s) (rsi s) (rdi s) (r8 s) v (rsp s)
            (mem s) (flags s) (written s)
  | RSP => mk_state (rax s) (rcx s) (rdx s) (rsi s) (rdi s) (r8 s) (r9 s) v
             (mem s) (flags s) (written s)
  end.

Definition set_flags (f : option (bool * bool)) (s : state) : state :=
  mk_state (rax s) (rcx s) (rdx s) (rsi s) (rdi s) (r8 s) (r9 s) (rsp s)
    (mem s) f (written s).

(** Memory [m] with the byte [v] stored at address [a]. *)
Definition store (m : Z -> Z) (a v : Z) : Z -> Z :=
  fun x => if (x =? a)%Z then v else m x.

Definition set_mem (m : Z -> Z) (s : state) : state :=
  mk_state (rax s) (rcx s) (rdx s) (rsi s) (rdi s) (r8 s) (r9 s) (rsp s)
    m (flags s) (written s).

(** The [n] bytes from address [a] on. *)
Fixpoint load (m : Z -> Z) (a : Z) (n : nat) : list Z :=
  match n with
  | O => []
  | S n' => m a :: load m (a + 1)%Z n'
  end.

Definition ea (a : addr) (s : state) : Z :=
  wrap (get (base a) s + disp a
        + match index a with
          | Some (r, scale) => get r s * scale
          | None => 0
          end)%Z.

(** An instruction other than a jump, a system call or a return. *)
Definition exec (i : instr) (s : state) : state :=
  match i with
  | MovRI dst imm => set dst (wrap imm) s
  | MovRR dst src => set dst (get src s) s
  | Mov32RI dst imm => set dst (imm mod 2 ^ 32)%Z s
  | MovByteMI a imm => set_mem (store (mem s) (ea a s) (imm mod 256)%Z) s
  | MovByteMR a src =>
      set_mem (store (mem s) (ea a s) (get src s mod 256)%Z) s
  | Lea dst a => set dst (ea a s) s
  | AddRR dst src =>
      let a := get dst s in
      let b := get src s in
      set_flags (Some ((W <=? a + b)%Z, (wrap (a + b) =? 0)%Z))
        (set dst (wrap (a + b)) s)
  | AddRI dst imm =>
      let a := get dst s in
      let b := wrap imm in
      set_flags (Some ((W <=? a + b)%Z, (wrap (a + b) =? 0)%Z))
        (set dst (wrap (a + b)) s)
  | Add32RI dst imm =>
      let a := (get dst s mod 2 ^ 32)%Z in
      let b := (imm mod 2 ^ 32)%Z in
      set_flags (Some ((2 ^ 32 <=? a + b)%Z, ((a + b) mod 2 ^ 32 =? 0)%Z))
        (set dst ((a + b) mod 2 ^ 32)%Z s)
  | SubRR dst src =>
      let a := get dst s in
      let b := get src s in
      set_flags (Some ((a <? b)%Z, (a =? b)%Z)) (set dst (wrap (a - b)) s)
  | SubRI dst imm =>
      let a := get dst s in
      let b := wrap imm in
      set_flags (Some ((a <? b)%Z, (a =? b)%Z)) (set dst (wrap (a - b)) s)
  | Mul src =>
      let p := (rax s * get src s)%Z in
      set_flags None (set RDX (p / W)%Z (set RAX (wrap p) s))
  | ShrRI dst count =>
      let c := (count mod 64)%Z in
      if (c =? 0)%Z then s
      else
        let a := get dst s in
        set_flags (Some (Z.testbit a (c - 1), (a / 2 ^ c =? 0)%Z))
          (set dst (a / 2 ^ c)%Z s)
  | Xor32RR dst src =>
      let v := Z.lxor (get dst s mod 2 ^ 32) (get src s mod 2 ^ 32) in
      set_flags (Some (false, (v =? 0)%Z)) (set dst v s)
  | CmpRI r imm =>
      let a := get r s in
      let b := wrap imm in
      set_flags (Some ((a <? b)%Z, (a =? b)%Z)) s
  | Ja _ | Syscall | Ret => s
  end.

Section Run.

(** What the kernel leaves in [rax] (the result of [write]) and in [rcx]
    after a system call. *)
Variable write_result : Z.
Variable clobber : Z.

Variable program : list item.

Fixpoint find_label (name : string) (items : list item) (at_index : nat)
  : option nat :=
  match items with
  | [] => None
  | Label l :: items' =>
      if (l =? name)%string then Some at_index
      else find_label name items' (S at_index)
  | Ins _ :: items' => find_label name items' (S at_index)
  end.

(** [run fuel pc s] executes from the item number [pc] until [ret] is
    reached, and returns the state there; [None] when the fuel runs out or
    the execution is not defined: a jump on undefined flags or to a missing
    label, a system call other than [write], the end of the items. *)
Fixpoint run (fuel : nat) (pc : nat) (s : state) : option state :=
  match fuel with
  | O => None
  | S fuel' =>
      match nth_error program pc with
      | None => None
      | Some (Label _) => run fuel' (S pc) s
      | Some (Ins Ret) => Some s
      | Some (Ins (Ja target)) =>
          match flags s with
          | Some (cf, zf) =>
              if negb cf && negb zf
              then match find_label target program 0 with
                   | Some t => run fuel' t s
                   | None => None
                   end
              else run fuel' (S pc) s
          | None => None
          end
      | Some (Ins Syscall) =>
          if (rax s =? 1)%Z
          then
            let bytes := load (mem s) (rsi s) (Z.to_nat (rdx s)) in
            run fuel' (S pc)
              (mk_state write_result clobber (rdx s) (rsi s) (rdi s) (r8 s)
                 (r9 s) (rsp s) (mem s) (flags s)
                 (written s ++ [(rdi s, bytes)]))
          else None
      | Some (Ins i) => run fuel' (S pc) (exec i s)
      end
  end.

End Run.

End Asm.

Definition at_rsp (d : Z) : Asm.addr := Asm.mk_addr Asm.RSP d None.

(** The items of the subroutine [dump]. *)
Definition dump_items : list Asm.item :=
  [Asm.Label "dump";
   Asm.Ins (Asm.MovRI Asm.R9 (-3689348814741910323));
   Asm.Ins (Asm.SubRI Asm.RSP 40);
   Asm.Ins (Asm.MovByteMI (at_rsp 31) 10);
   Asm.Ins (Asm.Lea Asm.RCX (at_rsp 30));
   Asm.Label ".L2";
   Asm.Ins (Asm.MovRR Asm.RAX Asm.RDI);
   Asm.Ins (Asm.Lea Asm.R8 (at_rsp 32));
   Asm.Ins (Asm.Mul Asm.R9);
   Asm.Ins (Asm.MovRR Asm.RAX Asm.RDI);
   Asm.Ins (Asm.SubRR Asm.R8 Asm.RCX);
   Asm.Ins (Asm.ShrRI Asm.RDX 3);
   Asm.Ins (Asm.Lea Asm.RSI (Asm.mk_addr Asm.RDX 0 (Some (Asm.RDX, 4%Z))));
   Asm.Ins (Asm.AddRR Asm.RSI Asm.RSI);
   Asm.Ins (Asm.SubRR Asm.RAX Asm.RSI);
   Asm.Ins (Asm.Add32RI Asm.RAX 48);
   Asm.Ins (Asm.MovByteMR (Asm.mk_addr Asm.RCX 0 None) Asm.RAX);
   Asm.Ins (Asm.MovRR Asm.RAX Asm.RDI);
   Asm.Ins (Asm.MovRR Asm.RDI Asm.RDX);
   Asm.Ins (Asm.MovRR Asm.RDX Asm.RCX);
   Asm.Ins (Asm.SubRI Asm.RCX 1);
   Asm.Ins (Asm.CmpRI Asm.RAX 9);
   Asm.Ins (Asm.Ja ".L2");
   Asm.Ins (Asm.Lea Asm.RAX (at_rsp 32));
   Asm.Ins (Asm.Mov32RI Asm.RDI 1);
   Asm.Ins (Asm.SubRR Asm.RDX Asm.RAX);
   Asm.Ins (Asm.Xor32RR Asm.RAX Asm.RAX);
   Asm.Ins (Asm.Lea Asm.RSI (Asm.mk_addr Asm.RSP 32 (Some (Asm.RDX, 1%Z))));
   Asm.Ins (Asm.MovRR Asm.RDX Asm.R8);
   Asm.Ins (Asm.MovRI Asm.RAX 1);
   Asm.Ins Asm.Syscall;
   Asm.Ins (Asm.AddRI Asm.RSP 40);
   Asm.Ins Asm.Ret].

(** The prologue is two directives and the text of these items. *)
Lemma prologue_dump_items :
  prologue = ln "BITS 64" ++ ln "segment .text" ++ Asm.render dump_items.
Proof. vm_compute. reflexivity. Qed.

(** The entry state of a call: [n] in [rdi], the stack pointer [sp]. *)
Definition dump_entry (n sp : Z) (m : Z -> Z) : Asm.state :=
  Asm.mk_state 0 0 0 0 n 0 0 sp m None [].

Example dump_ex1 :
  option_map Asm.written
    (Asm.run 0 0 dump_items 1000 0 (dump_entry 1234567890 4096 (fun _ => 0%Z)))
  = Some [(1, [49; 50; 51; 52; 53; 54; 55; 56; 57; 48; 10])%Z].
Proof. vm_compute. reflexivity. Qed.

Example dump_ex2 :
  option_map Asm.written
    (Asm.run 0 0 dump_items 1000 0 (dump_entry 0 4096 (fun _ => 0%Z)))
  = Some [(1, [48; 10])%Z].
Proof. vm_compute. reflexivity. Qed.

Example dump_ex3 :
  option_map Asm.written
    (Asm.run 0 0 dump_items 1000 0
       (dump_entry (2 ^ 64 - 1) 4096 (fun _ => 0%Z)))
  = Some [(1, [49; 56; 52; 52; 54; 55; 52; 52; 48; 55; 51; 55; 48; 57; 53;
               53; 49; 54; 49; 53; 10])%Z].
Proof. vm_compute. reflexivity. Qed.


(** ** Straight-line execution *)

Definition straight (i : Asm.instr) : bool :=
  match i with
  | Asm.Ja _ | Asm.Syscall | Asm.Ret => false
  | _ => true
  end.

Fixpoint exec_block (code : list Asm.instr) (s : Asm.state) : Asm.state :=
  match code with
  | [] => s
  | i :: code' => exec_block code' (Asm.exec i s)
  end.

Section DumpRuns.

Variable write_result : Z.
Variable clobber : Z.

Lemma run_straight (program : list Asm.item) (code : list Asm.instr)
  (pc fuel : nat) (s : Asm.state) :
  firstn (List.length code) (skipn pc program) = map Asm.Ins code ->
  forallb straight code = true ->
  Asm.run write_result clobber program (List.length code + fuel) pc s
  = Asm.run write_result clobber program fuel (pc + List.length code)
      (exec_block code s).
Proof.
  revert pc s. induction code as [|i code IH]; intros pc s Hseg Hstraight.
  - cbn [List.length exec_block]. now rewrite Nat.add_0_r.
  - cbn [forallb] in Hstraight. apply andb_true_iff in Hstraight.
    destruct Hstraight as [Hi Hcode].
    assert (Hnth : nth_error program pc = Some (Asm.Ins i)
                   /\ firstn (List.length code) (skipn (S pc) program)
                      = map Asm.Ins code).
    { clear - Hseg. revert pc Hseg.
      induction program as [|it program' IHp]; intros [|pc] Hseg;
        cbn [skipn List.length firstn map nth_error] in *; try discriminate.
      - injection Hseg as -> Hrest. now split.
      - now apply IHp. }
    destruct Hnth as [Hnth Hrest].
    cbn [List.length Nat.add Asm.run exec_block]. rewrite Hnth.
    replace (pc + S (List.length code)) with (S pc + List.length code) by lia.
    rewrite <- (IH (S pc) (Asm.exec i s) Hrest Hcode).
    destruct i; try reflexivity; discriminate.
Qed.

Lemma run_label (program : list Asm.item) (name : string)
  (pc fuel : nat) (s : Asm.state) :
  nth_error program pc = Some (Asm.Label name) ->
  Asm.run write_result clobber program (S fuel) pc s
  = Asm.run write_result clobber program fuel (S pc) s.
Proof. intros H. cbn [Asm.run]. now rewrite H. Qed.

Lemma run_ja (program : list Asm.item) (target : string)
  (pc t fuel : nat) (s : Asm.state) (cf zf : bool) :
  nth_error program pc = Some (Asm.Ins (Asm.Ja target)) ->
  Asm.find_label target program 0 = Some t ->
  Asm.flags s = Some (cf, zf) ->
  Asm.run write_result clobber program (S fuel) pc s
  = if negb cf && negb zf
    then Asm.run write_result clobber program fuel t s
    else Asm.run write_result clobber program fuel (S pc) s.
Proof. intros H Ht Hf. cbn [Asm.run]. now rewrite H, Hf, Ht. Qed.

Lemma run_write (program : list Asm.item) (pc fuel : nat) (s : Asm.state) :
  nth_error program pc = Some (Asm.Ins Asm.Syscall) ->
  Asm.rax s = 1%Z ->
  Asm.run write_result clobber program (S fuel) pc s
  = Asm.run write_result clobber program fuel (S pc)
      (Asm.mk_state write_result clobber (Asm.rdx s) (Asm.rsi s) (Asm.rdi s)
         (Asm.r8 s) (Asm.r9 s) (Asm.rsp s) (Asm.mem s) (Asm.flags s)
         (Asm.written s
          ++ [(Asm.rdi s,
               Asm.load (Asm.mem s) (Asm.rsi s) (Z.to_nat (Asm.rdx s)))])).
Proof. intros H Hax. cbn [Asm.run]. now rewrite H, Hax. Qed.

Lemma run_ret (program : list Asm.item) (pc fuel : nat) (s : Asm.state) :
  nth_error program pc = Some (Asm.Ins Asm.Ret) ->
  Asm.run write_result clobber program (S fuel) pc s = Some s.
Proof. intros H. cbn [Asm.run]. now rewrite H. Qed.

End DumpRuns.


(** ** The arithmetic of the subroutine *)

(** The constant that the subroutine multiplies with, as an unsigned
    word: ten times it is [2 ^ 67 + 2]. *)
Definition dump_magic : Z := 14757395258967641293.

Lemma dump_magic_word : Asm.wrap (-3689348814741910323) = dump_magic.
Proof. reflexivity. Qed.

(** The high half of the product, shifted right by three, is the
    quotient by ten. *)
Lemma div10_by_multiplication (q : Z) :
  (0 <= q < Asm.W)%Z -> (q * dump_magic / Asm.W / 8 = q / 10)%Z.
Proof.
  intros Hq. unfold Asm.W in *. rewrite Z.div_div by lia.
  pose proof (Z.div_mod q 10 ltac:(lia)) as Hdm.
  pose proof (Z.mod_pos_bound q 10 ltac:(lia)) as Hr.
  symmetry.
  apply Z.div_unique with (q * dump_magic - 2 ^ 64 * 8 * (q / 10))%Z;
    unfold dump_magic; lia.
Qed.

Lemma wrap_small (z : Z) : (0 <= z < Asm.W)%Z -> Asm.wrap z = z.
Proof. intros H. unfold Asm.wrap. now apply Z.mod_small. Qed.

(** The decimal digits of a number, the most significant first. *)
Inductive decimal : Z -> list Z -> Prop :=
| decimal_digit q : (0 <= q <= 9)%Z -> decimal q [q]
| decimal_more q ds :
    (9 < q)%Z -> decimal (q / 10)%Z ds ->
    decimal q (ds ++ [(q mod 10)%Z])%list.

Lemma load_app (m : Z -> Z) (a : Z) (n1 n2 : nat) :
  Asm.load m a (n1 + n2)
  = (Asm.load m a n1 ++ Asm.load m (a + Z.of_nat n1) n2)%list.
Proof.
  revert a. induction n1 as [|n1 IH]; intros a.
  - cbn [Nat.add Asm.load List.app]. f_equal. cbn. lia.
  - cbn [Nat.add Asm.load List.app]. rewrite IH. do 3 f_equal. lia.
Qed.

Lemma load_ext (m m' : Z -> Z) (a : Z) (n : nat) :
  (forall x, (a <= x < a + Z.of_nat n)%Z -> m' x = m x) ->
  Asm.load m' a n = Asm.load m a n.
Proof.
  revert a. induction n as [|n IH]; intros a H; [reflexivity|].
  cbn [Asm.load]. rewrite H by lia. f_equal. apply IH.
  intros x Hx. apply H. lia.
Qed.

(** ** The loop *)

(** The instructions between the label [.L2] and the jump. *)
Definition loop_body : list Asm.instr :=
  [Asm.MovRR Asm.RAX Asm.RDI;
   Asm.Lea Asm.R8 (at_rsp 32);
   Asm.Mul Asm.R9;
   Asm.MovRR Asm.RAX Asm.RDI;
   Asm.SubRR Asm.R8 Asm.RCX;
   Asm.ShrRI Asm.RDX 3;
   Asm.Lea Asm.RSI (Asm.mk_addr Asm.RDX 0 (Some (Asm.RDX, 4%Z)));
   Asm.AddRR Asm.RSI Asm.RSI;
   Asm.SubRR Asm.RAX Asm.RSI;
   Asm.Add32RI Asm.RAX 48;
   Asm.MovByteMR (Asm.mk_addr Asm.RCX 0 None) Asm.RAX;
   Asm.MovRR Asm.RAX Asm.RDI;
   Asm.MovRR Asm.RDI Asm.RDX;
   Asm.MovRR Asm.RDX Asm.RCX;
   Asm.SubRI Asm.RCX 1;
   Asm.CmpRI Asm.RAX 9].

Lemma exec_shr3 (r : Asm.reg) (s : Asm.state) :
  Asm.exec (Asm.ShrRI r 3) s
  = Asm.set_flags
      (Some (Z.testbit (Asm.get r s) 2, (Asm.get r s / 8 =? 0)%Z))
      (Asm.set r (Asm.get r s / 8)%Z s).
Proof. reflexivity. Qed.

Ltac asm_compute :=
  cbv [Asm.exec Asm.set Asm.get Asm.set_flags Asm.set_mem
       Asm.ea at_rsp Asm.base Asm.disp Asm.index
       Asm.rax Asm.rcx Asm.rdx Asm.rsi Asm.rdi Asm.r8 Asm.r9 Asm.rsp
       Asm.mem Asm.flags Asm.written].

(** One pass through the body: the digit [q mod 10] is stored at [p], the
    quotient is left in [rdi], the pointer moves down by one. *)
Lemma loop_body_effect (ax dx si q r8v sp p : Z) (m : Z -> Z)
  (fl : option (bool * bool)) (wr : list (Z * list Z)) :
  (0 <= q < Asm.W)%Z -> (0 <= sp)%Z -> (1 <= p <= sp + 32)%Z ->
  (sp + 32 < Asm.W)%Z ->
  exec_block loop_body (Asm.mk_state ax p dx si q r8v dump_magic sp m fl wr)
  = Asm.mk_state q (p - 1) p (10 * (q / 10)) (q / 10) (sp + 32 - p)
      dump_magic sp (Asm.store m p (48 + q mod 10))
      (Some (q <? 9, q =? 9)%Z) wr.
Proof.
  intros Hq Hsp Hp Hmax.
  unfold loop_body. cbn [exec_block]. rewrite exec_shr3. asm_compute.
  rewrite (div10_by_multiplication q Hq).
  pose proof (Z.div_mod q 10 ltac:(lia)) as Hdm.
  pose proof (Z.mod_pos_bound q 10 ltac:(lia)) as Hr.
  assert (Hd : (0 <= q / 10)%Z) by (apply Z.div_pos; lia).
  unfold Asm.W in *.
  assert (H5 : Asm.wrap (q / 10 + 0 + q / 10 * 4) = (5 * (q / 10))%Z)
    by (rewrite wrap_small; unfold Asm.W; lia).
  rewrite H5.
  assert (H10 : Asm.wrap (5 * (q / 10) + 5 * (q / 10)) = (10 * (q / 10))%Z)
    by (rewrite wrap_small; unfold Asm.W; lia).
  rewrite H10.
  assert (Hrem : Asm.wrap (q - 10 * (q / 10)) = (q mod 10)%Z)
    by (rewrite wrap_small; unfold Asm.W; lia).
  rewrite Hrem.
  assert (Hbyte : ((((q mod 10) mod 2 ^ 32 + 48 mod 2 ^ 32) mod 2 ^ 32) mod 256
                   = 48 + q mod 10)%Z).
  { rewrite (Z.mod_small (q mod 10)) by lia.
    rewrite (Z.mod_small 48) by lia.
    rewrite (Z.mod_small (q mod 10 + 48)) by lia.
    rewrite Z.mod_small by lia. lia. }
  rewrite Hbyte.
  change (Asm.wrap 1) with 1%Z. change (Asm.wrap 9) with 9%Z.
  rewrite (wrap_small (sp + 32 + 0)), (wrap_small (sp + 32 + 0 - p)),
    (wrap_small (p - 1)), (wrap_small (p + 0 + 0))
    by (unfold Asm.W; lia).
  f_equal; try lia. f_equal. lia.
Qed.


Section DumpCorrect.

Variable write_result : Z.
Variable clobber : Z.

Let run := Asm.run write_result clobber dump_items.

(** One pass through the loop, from the label to the jump: back to the
    label while the number has more than one digit, on to the instructions
    after the loop otherwise. *)
Lemma loop_pass (fuel : nat) (ax dx si q r8v sp p : Z) (m : Z -> Z)
  (fl : option (bool * bool)) (wr : list (Z * list Z)) :
  (0 <= q < Asm.W)%Z -> (0 <= sp)%Z -> (1 <= p <= sp + 32)%Z ->
  (sp + 32 < Asm.W)%Z ->
  run (18 + fuel) 5 (Asm.mk_state ax p dx si q r8v dump_magic sp m fl wr)
  = run fuel (if (9 <? q)%Z then 5 else 23)
      (Asm.mk_state q (p - 1) p (10 * (q / 10)) (q / 10) (sp + 32 - p)
         dump_magic sp (Asm.store m p (48 + q mod 10))
         (Some (q <? 9, q =? 9)%Z) wr).
Proof.
  intros Hq Hsp Hp Hmax. unfold run.
  replace (18 + fuel) with (S (List.length loop_body + S fuel))
    by (cbn [List.length loop_body]; lia).
  rewrite (run_label _ _ dump_items ".L2") by reflexivity.
  rewrite (run_straight _ _ dump_items loop_body 6) by reflexivity.
  rewrite loop_body_effect by assumption.
  rewrite (run_ja _ _ dump_items ".L2" (6 + List.length loop_body) 5 fuel _
             (q <? 9)%Z (q =? 9)%Z) by reflexivity.
  destruct (Z.ltb_spec 9 q); destruct (Z.ltb_spec q 9);
    destruct (Z.eqb_spec q 9); try lia; reflexivity.
Qed.

(** The loop stores the digits of [q] downwards from [p] and leaves in
    [rdx] the address of the first digit and in [r8] the distance from
    there to the end of the buffer. *)
Lemma loop_runs (steps : nat) :
  forall (q ax dx si r8v sp p k : Z) (m : Z -> Z)
         (fl : option (bool * bool)) (wr : list (Z * list Z)),
    Z.to_nat q <= steps ->
    (0 <= q < Asm.W)%Z -> (0 <= sp)%Z -> (sp + 32 < Asm.W)%Z ->
    (p = sp + 10 + k)%Z -> (1 <= k <= 22)%Z -> (q < 10 ^ k)%Z ->
    exists (n : nat) (ds : list Z) (s' : Asm.state),
      decimal q ds
      /\ (Z.of_nat (List.length ds) <= k)%Z
      /\ (forall fuel,
             run (n + fuel) 5
               (Asm.mk_state ax p dx si q r8v dump_magic sp m fl wr)
             = run fuel 23 s')
      /\ Asm.rdx s' = (p + 1 - Z.of_nat (List.length ds))%Z
      /\ Asm.r8 s' = (sp + 32 - Asm.rdx s')%Z
      /\ Asm.rsp s' = sp
      /\ Asm.written s' = wr
      /\ Asm.load (Asm.mem s') (Asm.rdx s') (List.length ds)
         = map (Z.add 48) ds
      /\ (forall a, (a < Asm.rdx s' \/ p < a)%Z -> Asm.mem s' a = m a).
Proof.
  induction steps as [steps IH] using lt_wf_ind.
  intros q ax dx si r8v sp p k m fl wr Hsteps Hq Hsp Hmax Hp Hk Hpow.
  assert (Hpass := fun fuel =>
            loop_pass fuel ax dx si q r8v sp p m fl wr Hq Hsp
              ltac:(lia) Hmax).
  destruct (Z.ltb_spec 9 q) as [Hbig|Hsmall].
  - assert (Hk2 : (2 <= k)%Z).
    { destruct (Z.eq_dec k 1) as [->|]; [|lia]. simpl in Hpow. lia. }
    assert (Hq' : (0 <= q / 10 < q)%Z).
    { split; [apply Z.div_pos; lia|apply Z.div_lt; lia]. }
    assert (Hpow' : (q / 10 < 10 ^ (k - 1))%Z).
    { apply Z.div_lt_upper_bound; [lia|].
      rewrite <- Z.pow_succ_r by lia.
      now replace (Z.succ (k - 1)) with k by lia. }
    destruct (IH (Z.to_nat (q / 10)) ltac:(lia) (q / 10)%Z q p
                (10 * (q / 10))%Z (sp + 32 - p)%Z sp (p - 1)%Z (k - 1)%Z
                (Asm.store m p (48 + q mod 10))
                (Some (q <? 9, q =? 9)%Z) wr
                (le_n _) ltac:(lia) Hsp Hmax ltac:(lia) ltac:(lia) Hpow')
      as (n & ds & s' & Hds & Hlen & Hrun & Hrdx & Hr8 & Hrsp & Hwr
          & Hload & Hmem).
    exists (18 + n), (ds ++ [(q mod 10)%Z])%list, s'.
    rewrite List.length_app. cbn [List.length].
    split; [now apply decimal_more|]. split; [lia|].
    split; [intros fuel; rewrite <- Nat.add_assoc, Hpass; apply Hrun|].
    split; [lia|]. split; [exact Hr8|]. split; [exact Hrsp|].
    split; [exact Hwr|]. split.
    + rewrite load_app, Hload, map_app. cbn [map Asm.load]. do 2 f_equal.
      rewrite Hmem by lia. unfold Asm.store.
      replace (Asm.rdx s' + Z.of_nat (List.length ds))%Z with p by lia.
      now rewrite Z.eqb_refl.
    + intros a Ha. rewrite Hmem by lia. unfold Asm.store.
      destruct (Z.eqb_spec a p); [lia|reflexivity].
  - exists 18, [q].
    eexists. cbn [List.length].
    split; [apply decimal_digit; lia|]. split; [lia|].
    split; [intros fuel; apply Hpass|].
    cbn [Asm.rdx Asm.r8 Asm.rsp Asm.written Asm.mem Asm.load map].
    repeat split; try lia.
    + unfold Asm.store. rewrite Z.eqb_refl. rewrite Z.mod_small by lia.
      reflexivity.
    + intros a Ha. unfold Asm.store.
      destruct (Z.eqb_spec a p); [lia|reflexivity].
Qed.

(** The instructions before the loop and after it. *)
Definition dump_header : list Asm.instr :=
  [Asm.MovRI Asm.R9 (-3689348814741910323);
   Asm.SubRI Asm.RSP 40;
   Asm.MovByteMI (at_rsp 31) 10;
   Asm.Lea Asm.RCX (at_rsp 30)].

Definition dump_footer : list Asm.instr :=
  [Asm.Lea Asm.RAX (at_rsp 32);
   Asm.Mov32RI Asm.RDI 1;
   Asm.SubRR Asm.RDX Asm.RAX;
   Asm.Xor32RR Asm.RAX Asm.RAX;
   Asm.Lea Asm.RSI (Asm.mk_addr Asm.RSP 32 (Some (Asm.RDX, 1%Z)));
   Asm.MovRR Asm.RDX Asm.R8;
   Asm.MovRI Asm.RAX 1].

Lemma header_runs (fuel : nat) (s : Asm.state) :
  (40 <= Asm.rsp s < Asm.W)%Z ->
  run (5 + fuel) 0 s
  = run fuel 5
      (Asm.mk_state (Asm.rax s) (Asm.rsp s - 40 + 30) (Asm.rdx s) (Asm.rsi s)
         (Asm.rdi s) (Asm.r8 s) dump_magic (Asm.rsp s - 40)
         (Asm.store (Asm.mem s) (Asm.rsp s - 40 + 31) 10)
         (Some (Asm.rsp s <? 40, Asm.rsp s =? 40)%Z) (Asm.written s)).
Proof.
  intros Hsp. unfold run.
  destruct s as [ax cx dx si di r8v r9v sp m fl wr].
  cbn [Asm.rax Asm.rcx Asm.rdx Asm.rsi Asm.rdi Asm.r8 Asm.r9 Asm.rsp
       Asm.mem Asm.flags Asm.written] in *.
  replace (5 + fuel) with (S (List.length dump_header + fuel))
    by (cbn [List.length dump_header]; lia).
  rewrite (run_label _ _ dump_items "dump") by reflexivity.
  rewrite (run_straight _ _ dump_items dump_header 1) by reflexivity.
  change (1 + List.length dump_header) with 5. f_equal.
  unfold dump_header. cbn [exec_block]. asm_compute.
  rewrite dump_magic_word. change (Asm.wrap 40) with 40%Z.
  change (10 mod 256)%Z with 10%Z.
  rewrite (wrap_small (sp - 40)) by (unfold Asm.W in *; lia).
  rewrite !wrap_small by (unfold Asm.W in *; lia).
  f_equal; try lia. f_equal. lia.
Qed.

Lemma footer_runs (s : Asm.state) :
  (0 <= Asm.rsp s)%Z -> (Asm.rsp s + 40 < Asm.W)%Z ->
  (0 <= Asm.rdx s < Asm.W)%Z ->
  exists final,
    run 10 23 s = Some final
    /\ Asm.written final
       = (Asm.written s
          ++ [(1%Z, Asm.load (Asm.mem s) (Asm.rdx s) (Z.to_nat (Asm.r8 s)))])%list
    /\ Asm.rsp final = (Asm.rsp s + 40)%Z
    /\ Asm.mem final = Asm.mem s.
Proof.
  intros Hsp Hmax Hdx. unfold run.
  destruct s as [ax cx dx si di r8v r9v sp m fl wr].
  cbn [Asm.rax Asm.rcx Asm.rdx Asm.rsi Asm.rdi Asm.r8 Asm.r9 Asm.rsp
       Asm.mem Asm.flags Asm.written] in *.
  change 10 with (List.length dump_footer + 3).
  rewrite (run_straight _ _ dump_items dump_footer 23) by reflexivity.
  change (23 + List.length dump_footer) with 30.
  rewrite (run_write _ _ dump_items 30) by reflexivity.
  change 2 with (List.length [Asm.AddRI Asm.RSP 40] + 1).
  rewrite (run_straight _ _ dump_items [Asm.AddRI Asm.RSP 40] 31)
    by reflexivity.
  rewrite (run_ret _ _ dump_items) by reflexivity.
  eexists. split; [reflexivity|].
  unfold dump_footer. cbn [exec_block]. asm_compute.
  change (1 mod 2 ^ 32)%Z with 1%Z. change (Asm.wrap 40) with 40%Z.
  assert (Hptr : Asm.wrap
                   (sp + 32 + Asm.wrap (dx - Asm.wrap (sp + 32 + 0)) * 1)
                 = dx).
  { rewrite (wrap_small (sp + 32 + 0)) by (unfold Asm.W in *; lia).
    unfold Asm.wrap. rewrite Z.mul_1_r, Zplus_mod_idemp_r.
    replace (sp + 32 + (dx - (sp + 32 + 0)))%Z with dx by lia.
    now apply Z.mod_small. }
  rewrite Hptr. rewrite wrap_small by (unfold Asm.W in *; lia).
  repeat split.
Qed.

End DumpCorrect.


(** ** The digits are those of the decimal text *)

(** The byte values of a text. *)
Definition codes (s : string) : list Z :=
  map (fun c => Z.of_nat (nat_of_ascii c)) (list_ascii_of_string s).

(** A numeral with the digit [d] in front, and the numeral whose digits,
    the least significant first, are given. *)
Definition digit_cons (d : Z) (u : uint) : uint :=
  match d with
  | 0%Z => D0 u | 1%Z => D1 u | 2%Z => D2 u | 3%Z => D3 u | 4%Z => D4 u
  | 5%Z => D5 u | 6%Z => D6 u | 7%Z => D7 u | 8%Z => D8 u | 9%Z => D9 u
  | _ => Nil
  end.

Fixpoint little (ds : list Z) : uint :=
  match ds with
  | [] => Nil
  | d :: ds' => digit_cons d (little ds')
  end.

Lemma digit_cases (d : Z) :
  (0 <= d <= 9)%Z ->
  d = 0%Z \/ d = 1%Z \/ d = 2%Z \/ d = 3%Z \/ d = 4%Z \/ d = 5%Z
  \/ d = 6%Z \/ d = 7%Z \/ d = 8%Z \/ d = 9%Z.
Proof. lia. Qed.

Ltac each_digit d H :=
  destruct (digit_cases d H) as [->|[->|[->|[->|[->|[->|[->|[->|[->| ->]]]]]]]]].

Lemma of_lu_digit_cons (d : Z) (u : uint) :
  (0 <= d <= 9)%Z ->
  Unsigned.of_lu (digit_cons d u) = (Z.to_N d + 10 * Unsigned.of_lu u)%N.
Proof. intros H. each_digit d H; reflexivity. Qed.

Lemma nztail_digit_cons (d : Z) (u : uint) :
  (0 <= d <= 9)%Z -> nztail u = u -> u <> Nil ->
  nztail (digit_cons d u) = digit_cons d u /\ digit_cons d u <> Nil.
Proof.
  intros H Hu Hne.
  each_digit d H; cbn [digit_cons nztail]; rewrite Hu;
    (split; [|discriminate]); trivial.
  destruct u; [now elim Hne|reflexivity..].
Qed.

(** The digits of [q] make a numeral of value [q] without leading
    zeros. *)
Lemma decimal_little (q : Z) (ds : list Z) :
  decimal q ds ->
  Forall (fun d => 0 <= d <= 9)%Z ds
  /\ Unsigned.of_lu (little (List.rev ds)) = Z.to_N q
  /\ lnorm (little (List.rev ds)) = little (List.rev ds)
  /\ ((1 <= q)%Z ->
      nztail (little (List.rev ds)) = little (List.rev ds)
      /\ little (List.rev ds) <> Nil).
Proof.
  induction 1 as [q Hq|q ds Hq _ (Hall & Hval & _ & Hnz)].
  - cbn [List.rev List.app little]. split; [repeat constructor; lia|].
    split; [rewrite of_lu_digit_cons by lia; cbn; lia|].
    each_digit q Hq; repeat split; try discriminate; lia.
  - rewrite List.rev_app_distr. cbn [List.rev List.app little].
    pose proof (Z.mod_pos_bound q 10 ltac:(lia)) as Hr.
    assert (Hq1 : (1 <= q / 10)%Z) by (apply Z.div_le_lower_bound; lia).
    destruct (Hnz Hq1) as [Htail Hne].
    destruct (nztail_digit_cons (q mod 10) _ ltac:(lia) Htail Hne)
      as [Htail' Hne'].
    split; [apply Forall_app; split; trivial; repeat constructor; lia|].
    split.
    + rewrite of_lu_digit_cons, Hval by lia.
      pose proof (Z.div_mod q 10 ltac:(lia)). lia.
    + split; [|now intros _].
      unfold lnorm. rewrite Htail'.
      destruct (digit_cons (q mod 10) (little (List.rev ds)));
        [now elim Hne'|reflexivity..].
Qed.

(** The text of digits, the most significant first. *)
Fixpoint digit_text (ds : list Z) : string :=
  match ds with
  | [] => EmptyString
  | d :: ds' => String (ascii_of_nat (Z.to_nat (48 + d))) (digit_text ds')
  end.

Lemma digit_text_app (a b : list Z) :
  digit_text (a ++ b) = digit_text a ++ digit_text b.
Proof. induction a as [|d a IH]; cbn; [reflexivity|now rewrite IH]. Qed.

Lemma string_of_revapp (ds : list Z) (acc : uint) :
  Forall (fun d => 0 <= d <= 9)%Z ds ->
  NilEmpty.string_of_uint (revapp (little ds) acc)
  = digit_text (List.rev ds) ++ NilEmpty.string_of_uint acc.
Proof.
  intros Hall. revert acc.
  induction Hall as [|d ds Hd _ IH]; intros acc; [reflexivity|].
  cbn [little List.rev]. rewrite digit_text_app, append_assoc.
  each_digit d Hd; cbn [digit_cons revapp]; rewrite IH; reflexivity.
Qed.

Lemma to_uint_little (n : N) : N.to_uint n = rev (Unsigned.to_lu n).
Proof. destruct n; reflexivity. Qed.

(** The digits of a number are the characters of its decimal text. *)
Lemma decimal_text (q : Z) (ds : list Z) :
  (0 <= q)%Z -> decimal q ds -> digit_text ds = Py.decimal q.
Proof.
  intros Hq Hds.
  destruct (decimal_little q ds Hds) as (Hall & Hval & Hnorm & _).
  assert (Huint : N.to_uint (Z.to_N q) = rev (little (List.rev ds))).
  { rewrite to_uint_little, <- Hval, Unsigned.to_of_lu. now rewrite Hnorm. }
  assert (Htext : NilEmpty.string_of_uint (N.to_uint (Z.to_N q))
                  = digit_text ds).
  { rewrite Huint. unfold rev.
    rewrite string_of_revapp by (apply Forall_rev; exact Hall).
    rewrite List.rev_involutive. cbn. apply append_nil_r. }
  unfold Py.decimal. rewrite <- Htext.
  destruct q as [|p|p]; [reflexivity| |lia].
  cbn [Z.to_int Z.to_N N.to_uint NilZero.string_of_int].
  unfold NilZero.string_of_uint.
  pose proof (DecimalPos.Unsigned.to_uint_nonnil p) as Hne.
  destruct (Pos.to_uint p); [now elim Hne|reflexivity..].
Qed.

Lemma codes_digit_text (ds : list Z) :
  Forall (fun d => 0 <= d <= 9)%Z ds ->
  codes (digit_text ds) = map (Z.add 48) ds.
Proof.
  unfold codes. induction 1 as [|d ds Hd _ IH]; [reflexivity|].
  cbn [digit_text list_ascii_of_string map]. rewrite IH. f_equal.
  rewrite nat_ascii_embedding by lia. lia.
Qed.

Lemma codes_append (a b : string) : codes (a ++ b) = (codes a ++ codes b)%list.
Proof.
  unfold codes. induction a as [|c a IH]; cbn; [reflexivity|].
  f_equal. exact IH.
Qed.

Section DumpTheorem.

Variable write_result : Z.
Variable clobber : Z.

(** X12. The subroutine [dump] prints its argument in decimal.  Called
    with the unsigned 64-bit value [n] in [rdi] and at least 40 bytes of
    stack below [rsp], the instructions of the prologue run to their [ret]
    and make one [write] call on file descriptor 1 whose bytes are the
    characters of the decimal text of [n] followed by a newline; [rsp] is
    then what it was at the entry, and memory outside the 40 bytes below
    it is unchanged. *)
Theorem dump_writes_decimal (s : Asm.state) :
  (0 <= Asm.rdi s < 2 ^ 64)%Z ->
  (40 <= Asm.rsp s < 2 ^ 64)%Z ->
  exists fuel final,
    Asm.run write_result clobber dump_items fuel 0 s = Some final
    /\ Asm.written final
       = (Asm.written s
          ++ [(1%Z, codes (Py.decimal (Asm.rdi s) ++ Py.nl))])%list
    /\ Asm.rsp final = Asm.rsp s
    /\ (forall a, (a < Asm.rsp s - 40 \/ Asm.rsp s <= a)%Z ->
                  Asm.mem final a = Asm.mem s a).
Proof.
  intros Hn Hsp.
  destruct s as [ax cx dx si n r8v r9v sp m fl wr].
  cbn [Asm.rdi Asm.rsp Asm.written Asm.mem] in *.
  assert (Hpow : (n < 10 ^ 20)%Z) by lia.
  destruct (loop_runs write_result clobber (Z.to_nat n) n ax dx si r8v
              (sp - 40) (sp - 40 + 30) 20
              (Asm.store m (sp - 40 + 31) 10)
              (Some (sp <? 40, sp =? 40)%Z) wr
              (le_n _) ltac:(unfold Asm.W; lia) ltac:(lia)
              ltac:(unfold Asm.W; lia) ltac:(lia) ltac:(lia) Hpow)
    as (k & ds & s' & Hds & Hlen & Hrun & Hrdx & Hr8 & Hrsp & Hwr
        & Hload & Hmem).
  destruct (footer_runs write_result clobber s')
    as (final & Hfinal & Hwritten & Hrsp' & Hmem');
    try (unfold Asm.W; lia).
  exists (5 + (k + 10)), final.
  split.
  { rewrite (header_runs write_result clobber (k + 10))
      by (cbn [Asm.rsp]; unfold Asm.W; lia).
    cbn [Asm.rax Asm.rcx Asm.rdx Asm.rsi Asm.rdi Asm.r8 Asm.r9 Asm.rsp
         Asm.mem Asm.flags Asm.written].
    now rewrite Hrun. }
  destruct (decimal_little n ds Hds) as (Hall & _).
  split; [|split].
  - rewrite Hwritten, Hwr. do 3 f_equal.
    replace (Z.to_nat (Asm.r8 s')) with (List.length ds + 1) by lia.
    rewrite load_app, Hload. cbn [Asm.load].
    rewrite Hmem by lia. unfold Asm.store at 1.
    replace (Asm.rdx s' + Z.of_nat (List.length ds) =? sp - 40 + 31)%Z
      with true by (symmetry; apply Z.eqb_eq; lia).
    rewrite codes_append, <- (decimal_text n ds) by (trivial; lia).
    now rewrite codes_digit_text.
  - lia.
  - intros a Ha. rewrite Hmem', Hmem by lia. unfold Asm.store.
    destruct (Z.eqb_spec a (sp - 40 + 31)); [lia|reflexivity].
Qed.

End DumpTheorem.

Lemma dump_writes_decimal_witness :
  exists fuel final,
    Asm.run 0 0 dump_items fuel 0 (dump_entry (2 ^ 64 - 1) 4096 (fun _ => 0%Z))
    = Some final
    /\ Asm.written final
       = ([] ++ [(1%Z, codes (Py.decimal (2 ^ 64 - 1) ++ Py.nl))])%list
    /\ Asm.rsp final = 4096%Z
    /\ (forall a, (a < 4096 - 40 \/ 4096 <= a)%Z -> Asm.mem final a = 0%Z).
Proof.
  apply (dump_writes_decimal 0 0
           (dump_entry (2 ^ 64 - 1) 4096 (fun _ => 0%Z)));
    cbn; lia.
Defined.

(* ===================================================================== *)
(** * Sample evaluations *)
(* ===================================================================== *)

Example int_ex1 : Py.int "-12" = Some (-12)%Z. Proof. reflexivity. Qed.
Example int_ex2 : Py.int "+5" = Some 5%Z. Proof. reflexivity. Qed.
Example int_ex3 : Py.int "1_000" = Some 1000%Z. Proof. reflexivity. Qed.
Example int_ex4 : Py.int "1__0" = None. Proof. reflexivity. Qed.
Example int_ex5 : Py.int "_1" = None. Proof. reflexivity. Qed.
Example int_ex6 : Py.int "1_" = None. Proof. reflexivity. Qed.
Example int_ex7 : Py.int "" = None. Proof. reflexivity. Qed.
Example int_ex8 : Py.int "-" = None. Proof. reflexivity. Qed.
Example int_ex9 : Py.int " 007 " = Some 7%Z. Proof. reflexivity. Qed.
Example int_ex10 : Py.int "--5" = None. Proof. reflexivity. Qed.
Example int_ex11 : Py.int "0x10" = None. Proof. reflexivity. Qed.
Example int_ex12 : Py.int "-0" = Some 0%Z. Proof. reflexivity. Qed.
Example int_ex13 : Py.int "+ 5" = None. Proof. reflexivity. Qed.
Example str_ex1 : Py.str_int (-120) = Py.Ok "-120". Proof. reflexivity. Qed.
Example str_ex2 : Py.str_int 0 = Py.Ok "0". Proof. reflexivity. Qed.

Example lex_lines_ex1 :
  lex_lines "a.sl" ["1 abc +" ++ Py.nl; "9 xyz"]
  = [("a.sl", 0, 0, "1"); ("a.sl", 0, 2, "abc"); ("a.sl", 0, 6, "+");
     ("a.sl", 1, 0, "9"); ("a.sl", 1, 2, "xyz")].
Proof. reflexivity. Qed.

Example main_ex1 :
  fst (main sample_one_line (fun _ _ => None) (fun _ => None)
         ["main.py"; "a.sl"])
  = [Print "[(OP_PUSH_INT, 10), (OP_PUSH_INT, 3), (OP_MINUS,), (OP_DUMP,)]";
     Compile [[VOp OP_PUSH_INT; VInt 10]; [VOp OP_PUSH_INT; VInt 3];
              [VOp OP_MINUS]; [VOp OP_DUMP]];
     WriteFile "out.asm"
       (prologue ++ entry_point
        ++ body [PushInt 10; PushInt 3; Minus; Dump] ++ epilogue);
     Print "Compiled to out.asm";
     Print "Running nasm...";
     Spawn ["nasm"; "-felf64"; "out.asm"];
     Print "Linking...";
     Spawn ["ld"; "-o"; "out"; "out.o"];
     Print "Running...";
     Spawn ["./out"]].
Proof. vm_compute. reflexivity. Qed.

Example main_ex2 :
  main sample_invalid (fun _ _ => None) (fun _ => None) ["main.py"; "a.sl"]
  = ([Print "Error at a.sl:1:3: Invalid token abc"; Print "[]"], None).
Proof. vm_compute. reflexivity. Qed.

Example main_ex3 :
  main sample_valid (fun _ _ => None) (fun _ => None) ["main.py"]
  = ([Print "Usage: main.py <file>"], None).
Proof. reflexivity. Qed.
